(** * Course recommender: text normaliser, top-K query, loader, singleton, route

    A shallow embedding of [backend/recommender.py] and [backend/app.py].

    Python strings are sequences of Unicode code points; numbers that the
    program only compares, negates and copies (scores, ratings) are exact
    rationals, a binary64 number being read as the rational it denotes.
    Calls into pandas, NumPy and scikit-learn are taken through interfaces
    that state the documented contract of each call, so that every theorem
    holds for any implementation honouring the contract; reference
    implementations further down show that the contracts are satisfiable and
    let the examples run.  The score bound is studied on a binary64 model of
    the TF-IDF index. *)

From Stdlib Require Import QArith Lia Ascii String.
From Stdlib Require Floats Uint63.
From stdpp Require Import base option list gmap strings sorting.

Local Open Scope nat_scope.

(** ** Python values *)

Abbreviation pystr := (list N).

(** Code points of an ASCII literal, to write examples legibly. *)
Fixpoint cps (s : string) : pystr :=
  match s with
  | EmptyString => []
  | String a t => N_of_ascii a :: cps t
  end.
Arguments cps : simpl never.

(** The scalars that flow through the program: [None], a float NaN, a finite
    float, an integer (the cells of an int64 column), a string. *)
Inductive pyval :=
  | PNone
  | PNaN
  | PNum (x : Q)
  | PInt (n : Z)
  | PStr (s : pystr).

(** [pd.isna] on a scalar. *)
Definition isna (v : pyval) : bool :=
  match v with
  | PNone | PNaN => true
  | PNum _ | PInt _ | PStr _ => false
  end.

Inductive exn :=
  | ValueError
  | IndexError
  | KeyError
  | TypeError
  | FileNotFoundError.

Inductive result (A : Type) :=
  | Ok (a : A)
  | Raise (e : exn).
Arguments Ok {A} a.
Arguments Raise {A} e.

#[global] Instance result_ret : MRet result := λ A a, Ok a.
#[global] Instance result_bind : MBind result := λ A B f m,
  match m with
  | Ok a => f a
  | Raise e => Raise e
  end.
#[global] Instance result_fmap : FMap result := λ A B f m,
  match m with
  | Ok a => Ok (f a)
  | Raise e => Raise e
  end.

(** ** Characters *)

Definition in_range (lo hi c : N) : bool := ((lo <=? c) && (c <=? hi))%N.

(** The character class [a-z0-9 ] of the first pattern. *)
Definition is_kept (c : N) : bool :=
  in_range 97 122 c || in_range 48 57 c || (c =? 32)%N.

(** Its complement, [^a-z0-9 ]. *)
Definition not_kept (c : N) : bool := negb (is_kept c).

(** [\s] on [str] patterns, which is also what [str.strip] removes
    ([Py_UNICODE_ISSPACE]). *)
Definition is_space (c : N) : bool :=
  in_range 0x09 0x0d c || in_range 0x1c 0x20 c || (c =? 0x85)%N || (c =? 0xa0)%N
  || (c =? 0x1680)%N || in_range 0x2000 0x200a c || (c =? 0x2028)%N
  || (c =? 0x2029)%N || (c =? 0x202f)%N || (c =? 0x205f)%N || (c =? 0x3000)%N.

(** Built-ins of the Python runtime whose tables are not part of the
    program: [str.lower], [str] of a float and of an integer, [float] on
    text, and [int] on text ([None] where Python raises [ValueError]).  The
    only fact used about [str.lower] is that it leaves text over [a-z0-9 ]
    alone. *)
Class PyBuiltins := {
  str_lower : pystr → pystr;
  str_of_float : Q → pystr;
  str_of_int : Z → pystr;
  float_of_str : pystr → option Q;
  int_of_str : pystr → option Z;
  str_lower_kept : ∀ s, Forall (λ c, is_kept c = true) s → str_lower s = s
}.

(** [str(v)]. *)
Definition py_str `{PyBuiltins} (v : pyval) : pystr :=
  match v with
  | PNone => cps "None"
  | PNaN => cps "nan"
  | PNum x => str_of_float x
  | PInt n => str_of_int n
  | PStr s => s
  end.

(** ** Regular expressions of the form [C+]

    [re.sub(r"C+", repl, s)] scans [s] from the left; where a character of
    the class starts a match the greedy [+] consumes the whole run, one copy
    of [repl] is written, and scanning resumes behind the run.  [re_sub_plus]
    is the scanner outside a match, [re_skip] the scanner inside one. *)
Fixpoint re_sub_plus (cls : N → bool) (repl s : pystr) {struct s} : pystr :=
  match s with
  | [] => []
  | c :: t =>
      if cls c then repl ++ re_skip cls repl t
      else c :: re_sub_plus cls repl t
  end
with re_skip (cls : N → bool) (repl s : pystr) {struct s} : pystr :=
  match s with
  | [] => []
  | c :: t =>
      if cls c then re_skip cls repl t
      else c :: re_sub_plus cls repl t
  end.

Fixpoint dropwhile {A} (p : A → bool) (l : list A) : list A :=
  match l with
  | [] => []
  | x :: t => if p x then dropwhile p t else l
  end.

(** [str.strip()] with no argument. *)
Definition lstrip (s : pystr) : pystr := dropwhile is_space s.
Definition rstrip (s : pystr) : pystr := reverse (dropwhile is_space (reverse s)).
Definition strip (s : pystr) : pystr := rstrip (lstrip s).

(** ** [Recommender._clean_text]

    The method does not read [self]; it is a function of its argument. *)
Definition _clean_text `{PyBuiltins} (s : pyval) : pystr :=
  if isna s then []
  else
    let s := str_lower (py_str s) in
    let s := re_sub_plus not_kept (cps " ") s in
    let s := strip (re_sub_plus is_space (cps " ") s) in
    s.

(** ** Data frames (pandas)

    A frame is a sequence of named columns of equal length, in file order.
    [read_csv] stands for [pd.read_csv] on the files of the host; it fails
    with [FileNotFoundError] for a path that is not there.

    The repository does not say which pandas release it runs on, and one
    call of the loader depends on it: [Series.astype(str)] keeps a missing
    value missing from pandas 3.0 on, where the result has the string dtype,
    and turned it into text before.  [astype_str_keeps_missing] says which
    of the two the installed pandas does. *)
Abbreviation Series := (list pyval).
Abbreviation DataFrame := (list (pystr * Series)).
Abbreviation Row := (list (pystr * pyval)).

(** All columns of a frame have the same number of rows. *)
Definition rectangular (d : DataFrame) : Prop :=
  ∀ col, col ∈ d.*2 →
    length col = match d with [] => 0 | (_, c) :: _ => length c end.

Class Pandas := {
  read_csv : pystr → result DataFrame;
  astype_str_keeps_missing : bool;
  read_csv_rectangular : ∀ path d, read_csv path = Ok d → rectangular d
}.

Fixpoint assoc {A} (k : pystr) (l : list (pystr * A)) : option A :=
  match l with
  | [] => None
  | (k', v) :: t => if decide (k = k') then Some v else assoc k t
  end.

(** [df.columns]. *)
Definition df_columns (d : DataFrame) : list pystr := d.*1.

(** [len(df)]. *)
Definition df_len (d : DataFrame) : nat :=
  match d with
  | [] => 0
  | (_, col) :: _ => length col
  end.

(** [df[name]]. *)
Definition df_col (d : DataFrame) (name : pystr) : result Series :=
  match assoc name d with
  | Some col => Ok col
  | None => Raise KeyError
  end.

(** [df[name] = col]: an existing column is replaced in place, a new one is
    appended. *)
Fixpoint df_set (d : DataFrame) (name : pystr) (col : Series) : DataFrame :=
  match d with
  | [] => [(name, col)]
  | (k, c) :: t => if decide (name = k) then (k, col) :: t else (k, c) :: df_set t name col
  end.

(** [df.iloc[i]] for [i >= 0]: the row as a mapping from column names to
    values. *)
Definition df_iloc (d : DataFrame) (i : nat) : result Row :=
  if decide (i < df_len d)
  then Ok ((λ kc : pystr * Series, (kc.1, default PNaN (kc.2 !! i))) <$> d)
  else Raise IndexError.

(** [row[name]] and [row.get(name, dflt)]. *)
Definition row_item (r : Row) (name : pystr) : result pyval :=
  match assoc name r with
  | Some v => Ok v
  | None => Raise KeyError
  end.
Definition row_get (r : Row) (name : pystr) (dflt : pyval) : pyval :=
  default dflt (assoc name r).

(** [Series.astype(str)]: every value that is present is replaced by its
    [str()].  A missing value stays missing (NaN) from pandas 3.0 on; before,
    it was replaced by its [str()] as well, so that a NaN became the three
    letters nan. *)
Definition astype_str `{PyBuiltins, Pandas} (s : Series) : Series :=
  (λ v, if isna v && astype_str_keeps_missing then PNaN else PStr (py_str v))
    <$> s.

(** [Series.fillna(x)]. *)
Definition fillna (x : pyval) (s : Series) : Series :=
  (λ v, if isna v then x else v) <$> s.

(** [+] on the elements of object columns. *)
Definition py_add (a b : pyval) : result pyval :=
  match a, b with
  | PStr x, PStr y => Ok (PStr (x ++ y))
  | PNum x, PNum y => Ok (PNum (x + y))
  | PInt x, PInt y => Ok (PInt (x + y))
  | PInt x, PNum y => Ok (PNum (inject_Z x + y))
  | PNum x, PInt y => Ok (PNum (x + inject_Z y))
  | (PNone | PNaN), _ | _, (PNone | PNaN) => Ok PNaN
  | _, _ => Raise TypeError
  end.

(** [series + scalar] and [series + series] (same index on both sides). *)
Definition series_add_scalar (s : Series) (x : pyval) : result Series :=
  mapM (λ v, py_add v x) s.
Definition series_add (s t : Series) : result Series :=
  mapM (λ vw : pyval * pyval, py_add vw.1 vw.2) (zip s t).

(** Truth value of a string or [None]. *)
Definition truthy (o : option pystr) : bool :=
  match o with
  | Some (_ :: _) => true
  | _ => false
  end.

(** [a or b]. *)
Definition py_or (a b : option pystr) : option pystr :=
  if truthy a then a else b.

(** ** [Recommender._detect_columns] *)
Record Mapping := {
  m_title : option pystr;
  m_url : option pystr;
  m_rating : option pystr;
  m_desc : option pystr
}.

Fixpoint is_prefix (p s : pystr) : bool :=
  match p, s with
  | [], _ => true
  | _ :: _, [] => false
  | a :: p', b :: s' => (a =? b)%N && is_prefix p' s'
  end.

(** [sub in s]. *)
Fixpoint str_contains (sub s : pystr) : bool :=
  is_prefix sub s ||
  match s with
  | [] => false
  | _ :: t => str_contains sub t
  end.

(** [{c.lower(): c for c in df.columns}]: a later column wins. *)
Definition lowered_names `{PyBuiltins} (cols : list pystr) : gmap pystr pystr :=
  foldl (λ m c, <[str_lower c := c]> m) ∅ cols.

(** [for cand in ...: if cand in cols: ...; break]. *)
Fixpoint first_candidate (cands : list pystr) (cols : gmap pystr pystr)
  : option pystr :=
  match cands with
  | [] => None
  | cand :: rest =>
      match cols !! cand with
      | Some c => Some c
      | None => first_candidate rest cols
      end
  end.

Definition title_candidates : list pystr :=
  [cps "title"; cps "course_title"; cps "course name"; cps "name"].
Definition url_candidates : list pystr :=
  [cps "url"; cps "course_url"; cps "link"; cps "course link"].
Definition rating_candidates : list pystr :=
  [cps "rating"; cps "avg_rating"; cps "avg rating"; cps "reviews"].

Definition _detect_columns `{PyBuiltins} (d : DataFrame) : Mapping :=
  let cols := lowered_names (df_columns d) in
  let descs :=
    List.filter (λ c, let l := str_lower c in
                str_contains (cps "desc") l || str_contains (cps "headline") l
                || str_contains (cps "subtitle") l)
           (df_columns d) in
  {| m_title := first_candidate title_candidates cols;
     m_url := first_candidate url_candidates cols;
     m_rating := first_candidate rating_candidates cols;
     m_desc := head descs |}.

(** ** scikit-learn

    [TfidfVectorizer(ngram_range, max_features).fit_transform(docs)],
    [vectorizer.transform(docs)] and [linear_kernel(X, Y)], with the shapes
    their documentation gives: one matrix row per document, and a kernel of
    [rows X] rows and [rows Y] columns. *)
Class Sklearn := {
  Vectorizer : Type;
  Matrix : Type;
  n_rows : Matrix → nat;
  tfidf_fit_transform : nat * nat → N → list pystr → result (Vectorizer * Matrix);
  tfidf_transform : Vectorizer → list pystr → Matrix;
  linear_kernel : Matrix → Matrix → list (list Q);
  fit_transform_rows : ∀ ngram maxf docs v X,
    tfidf_fit_transform ngram maxf docs = Ok (v, X) → n_rows X = length docs;
  transform_rows : ∀ v docs, n_rows (tfidf_transform v docs) = length docs;
  linear_kernel_rows : ∀ X Y, length (linear_kernel X Y) = n_rows X;
  linear_kernel_cols : ∀ X Y, Forall (λ r, length r = n_rows Y) (linear_kernel X Y)
}.

(** ** NumPy

    [a[i]] and [a[idx]] with an index array, [np.argsort(a)] and
    [np.argpartition(a, kth)].  The order among equal keys, and the order
    inside the partitions, is left to the implementation. *)
Definition list_item {A} (a : list A) (i : nat) : result A :=
  match a !! i with
  | Some x => Ok x
  | None => Raise IndexError
  end.

Definition take_idx {A} (a : list A) (idx : list nat) : result (list A) :=
  mapM (list_item a) idx.

(** The values an index array selects, for stating the contracts. *)
Definition gather {A} (a : list A) (idx : list nat) : list A :=
  omap (λ i, a !! i) idx.

Definition partitioned_at (a : list Q) (p : list nat) (k : nat) : Prop :=
  ∀ i j x y, i ≤ k → k ≤ j →
    gather a p !! i = Some x → gather a p !! j = Some y → (x <= y)%Q.

Class NumPy := {
  argsort : list Q → list nat;
  argpartition : list Q → list nat → result (list nat);
  argsort_perm : ∀ a, argsort a ≡ₚ seq 0 (length a);
  argsort_sorted : ∀ a, Sorted Qle (gather a (argsort a));
  argpartition_ok : ∀ a kth, Forall (λ k, k < length a) kth →
    ∃ p, argpartition a kth = Ok p ∧ p ≡ₚ seq 0 (length a)
         ∧ Forall (partitioned_at a p) kth;
  argpartition_bounds : ∀ a kth, ¬ Forall (λ k, k < length a) kth →
    argpartition a kth = Raise ValueError
}.

(** ** The [Recommender] object *)
Record Recommender `{Sklearn} := {
  csv_path : pystr;
  df : DataFrame;
  vectorizer : Vectorizer;
  tfidf_matrix : Matrix;
  text_fields : pyval;
  url_col : option pystr;
  rating_col : option pystr;
  mapping : Mapping
}.

(** One entry of the list [recommend] returns. *)
Record Hit := {
  title : pyval;
  score : Q;
  rating : pyval;
  url : pyval
}.

Section Program.
Context `{PyBuiltins, Pandas, Sklearn, NumPy}.

(** The text construction of [_load_data]: the string title column is added
    to the frame and the combined, cleaned text of every row is computed. *)
Definition build_text (d : DataFrame) (title_col : pystr)
    (desc_col : option pystr) : result (DataFrame * list pystr) :=
  tcol ← df_col d title_col;
  let d := df_set d (cps "__title__") (astype_str tcol) in
  t ← df_col d (cps "__title__");
  let combined := fillna (PStr []) t in
  (if truthy desc_col then
     dcol ← df_col d (default [] desc_col);
     c ← series_add_scalar combined (PStr (cps " "));
     series_add c (fillna (PStr []) (astype_str dcol))
   else Ok combined)
  ≫= λ combined : Series, Ok (d, _clean_text <$> combined).

(** [Recommender._load_data], run by [__init__] on the fresh object. *)
Definition _load_data (path : pystr) (fields : pyval) : result Recommender :=
  d ← read_csv path;
  let mapping := _detect_columns d in
  title_col ←
    (if truthy (m_title mapping) then Ok (default [] (m_title mapping))
     else match head (df_columns d) with
          | Some c => Ok c
          | None => Raise IndexError
          end) : result pystr;
  let url_col := m_url mapping in
  let rating_col := m_rating mapping in
  let desc_col := m_desc mapping in
  built ← build_text d title_col desc_col;
  fitted ← tfidf_fit_transform (1, 2) 20000%N built.2;
  Ok {| csv_path := path; df := built.1; vectorizer := fitted.1;
        tfidf_matrix := fitted.2; text_fields := fields; url_col := url_col;
        rating_col := rating_col; mapping := mapping |}.

(** [float(v)]. *)
Definition py_float (v : pyval) : result pyval :=
  match v with
  | PNum x => Ok (PNum x)
  | PInt n => Ok (PNum (inject_Z n))
  | PNaN => Ok PNaN
  | PStr s =>
      match float_of_str s with
      | Some x => Ok (PNum x)
      | None => Raise ValueError
      end
  | PNone => Raise TypeError
  end.

(** The two selection lines of [recommend]: partial selection of the best
    [top_n], then a sort of the selected indices by decreasing score. *)
Definition top_indices (sims : list Q) (top_n : Z) : result (list nat) :=
  let top_n := Z.max 1 top_n in
  let k := Z.to_nat (Z.min top_n (Z.of_nat (length sims))) in
  part ← argpartition (Qopp <$> sims) (seq 0 k);
  let top_idx := take (Z.to_nat top_n) part in
  sel ← take_idx sims top_idx;
  take_idx top_idx (argsort (Qopp <$> sel)).

(** The body of the result loop for one index. *)
Definition make_hit (self : Recommender) (sims : list Q) (idx : nat)
  : result Hit :=
  row ← df_iloc (df self) idx;
  let title := row_get row (cps "__title__") (PStr []) in
  score ← list_item sims idx;
  rating ←
    (if truthy (rating_col self) then
       v ← row_item row (default [] (rating_col self));
       if isna v then Ok PNone else py_float v
     else Ok PNone) : result pyval;
  url ←
    (if truthy (url_col self) then row_item row (default [] (url_col self))
     else Ok PNone) : result pyval;
  Ok {| title := title; score := score; rating := rating; url := url |}.

(** [Recommender.recommend]. *)
Definition recommend (self : Recommender) (query : pyval) (top_n : Z)
  : result (list Hit) :=
  let q := _clean_text query in
  if decide (q = []) then Ok []
  else
    let q_vec := tfidf_transform (vectorizer self) [q] in
    let cosine_similarities := concat (linear_kernel q_vec (tfidf_matrix self)) in
    if decide (length cosine_similarities = 0) then Ok []
    else
      top_idx ← top_indices cosine_similarities top_n;
      mapM (make_hit self cosine_similarities) top_idx.

(** ** [_SingletonMeta] and [create_recommender]

    The state of the process that the metaclass reads and writes: the
    class-level dictionary [_instances], and, as a record of what has
    happened, the argument of every run of [Recommender.__init__].  The lock
    makes each call atomic with respect to the dictionary, so calls are
    steps on this state. *)
Record Process := {
  instances : gmap string Recommender;
  init_runs : list pystr
}.

Definition fresh_process : Process := {| instances := ∅; init_runs := [] |}.

(** [Recommender.__init__(self, csv_path, text_fields=None)]. *)
Definition Recommender__init__ (path : pystr) (fields : pyval) : result Recommender :=
  _load_data path fields.

(** [_SingletonMeta.__call__] for the class [Recommender]. *)
Definition _SingletonMeta_call (path : pystr) (σ : Process)
  : Process * result Recommender :=
  let locked :=
    match instances σ !! "Recommender"%string with
    | Some _ => (σ, Ok ())
    | None =>
        let log := init_runs σ ++ [path] in
        match Recommender__init__ path PNone with
        | Ok r => ({| instances := <["Recommender"%string := r]> (instances σ);
                      init_runs := log |}, Ok ())
        | Raise e => ({| instances := instances σ; init_runs := log |}, Raise e)
        end
    end in
  match locked.2 with
  | Raise e => (locked.1, Raise e)
  | Ok _ =>
      match instances locked.1 !! "Recommender"%string with
      | Some r => (locked.1, Ok r)
      | None => (locked.1, Raise KeyError)
      end
  end.

Definition create_recommender (path : pystr) (σ : Process)
  : Process * result Recommender :=
  _SingletonMeta_call path σ.

(** A sequence of constructor calls, with the outcome of each. *)
Fixpoint run_calls (paths : list pystr) (σ : Process)
  : Process * list (result Recommender) :=
  match paths with
  | [] => (σ, [])
  | p :: rest =>
      let step := create_recommender p σ in
      let tail := run_calls rest step.1 in
      (tail.1, step.2 :: tail.2)
  end.

(** ** The [/recommend] route of [app.py] *)
Inductive response :=
  | JsonError (status : nat) (error : pystr) (raised : option exn)
  | JsonResults (query : pystr) (results : list Hit).

(** [request.args.get(key)]: the first value given for the key. *)
Definition args_get (args : list (pystr * pystr)) (key : pystr) : option pystr :=
  assoc key args.

(** [request.args.get("q") or request.args.get("name") or
    request.args.get("query")]. *)
Definition route_query (args : list (pystr * pystr)) : option pystr :=
  py_or (py_or (args_get args (cps "q")) (args_get args (cps "name")))
        (args_get args (cps "query")).

Definition missing_query_message : pystr :=
  cps "missing query parameter `q` (or `name`/`query`)".

(** [int(request.args.get("top_n", 4))], 4 when that raises. *)
Definition route_top_n (args : list (pystr * pystr)) : Z :=
  match args_get args (cps "top_n") with
  | None => 4%Z
  | Some s => default 4%Z (int_of_str s)
  end.

Definition route_recommend (reco : Recommender) (args : list (pystr * pystr))
  : response :=
  let q := route_query args in
  if negb (truthy q) then
    JsonError 400 missing_query_message None
  else
    let top_n := route_top_n args in
    match recommend reco (PStr (default [] q)) top_n with
    | Ok results => JsonResults (default [] q) results
    | Raise e => JsonError 500 (cps "internal server error") (Some e)
    end.

End Program.

(** ** Start-up of [app.py] *)

Section Startup.
Context `{PyBuiltins, Pandas, Sklearn, NumPy}.



End Startup.

(** ** The normaliser in the words of its description

    The maximal runs of a string with respect to a character class: each run
    is tagged with whether its characters are in the class. *)
Fixpoint runs (cls : N → bool) (s : pystr) : list (bool * pystr) :=
  match s with
  | [] => []
  | c :: t =>
      match runs cls t with
      | (b, r) :: rest =>
          if Bool.eqb (cls c) b then (b, c :: r) :: rest
          else (cls c, [c]) :: (b, r) :: rest
      | [] => [(cls c, [c])]
      end
  end.

(** Replace every maximal run of characters of the class by [repl]. *)
Definition replace_runs (cls : N → bool) (repl s : pystr) : pystr :=
  concat ((λ br : bool * pystr, if br.1 then repl else br.2) <$> runs cls s).

(** [t] is [s] without its leading and trailing white space. *)
Definition trimmed_of (s t : pystr) : Prop :=
  ∃ l r, s = l ++ t ++ r
    ∧ Forall (λ c, is_space c = true) l ∧ Forall (λ c, is_space c = true) r
    ∧ (∀ c, head t = Some c → is_space c = false)
    ∧ (∀ c, last t = Some c → is_space c = false).

(** Normal form: only [a-z0-9 ], no space at either end, no two spaces in a
    row. *)
Definition starts_space (s : pystr) : bool :=
  match s with
  | c :: _ => is_space c
  | [] => false
  end.

Fixpoint no_double_space (s : pystr) : bool :=
  match s with
  | [] => true
  | c :: t => negb (is_space c && starts_space t) && no_double_space t
  end.

Definition normalized (s : pystr) : bool :=
  forallb is_kept s && negb (starts_space s) && negb (starts_space (reverse s))
  && no_double_space s.

(** Adjacent results are in decreasing order of score. *)
Definition descending (scores : list Q) : Prop :=
  ∀ i a b, scores !! i = Some a → scores !! (S i) = Some b → (a >= b)%Q.

(** ** Notions used to state the properties of the query *)

Section Notions.
Context `{PyBuiltins, Sklearn}.

(** The number of catalogue records. *)
Definition corpus_size (self : Recommender) : nat := df_len (df self).

(** What [_load_data] establishes for the object it fills in: the frame is
    rectangular, the document matrix has one row per record, and the
    detected optional columns are columns of the frame. *)
Definition has_column (d : DataFrame) (c : option pystr) : Prop :=
  truthy c = true → is_Some (assoc (default [] c) d).

Record well_formed (self : Recommender) : Prop := {
  wf_rectangular : rectangular (df self);
  wf_aligned : n_rows (tfidf_matrix self) = df_len (df self);
  wf_rating : has_column (df self) (rating_col self);
  wf_url : has_column (df self) (url_col self)
}.

(** Every rating present in the catalogue is a number, or text that [float]
    accepts. *)
Definition ratings_numeric (self : Recommender) : Prop :=
  ∀ col, truthy (rating_col self) = true →
    df_col (df self) (default [] (rating_col self)) = Ok col →
    Forall (λ v, isna v = false → ∃ x, py_float v = Ok x) col.

(** The flattened kernel of one query against the document matrix. *)
Definition similarities (self : Recommender) (q : pystr) : list Q :=
  concat (linear_kernel (tfidf_transform (vectorizer self) [q]) (tfidf_matrix self)).

(** The value of column [name] in row [i], as [df.iloc[i][name]] reads it. *)
Definition cell (d : DataFrame) (name : pystr) (i : nat) : option pyval :=
  (λ col : Series, default PNaN (col !! i)) <$> assoc name d.

End Notions.

(** ** Notions used to state further properties *)

(** The letters and digits the normaliser keeps, [a-z0-9]. *)
Definition is_alnum (c : N) : bool := in_range 97 122 c || in_range 48 57 c.

(** The words of a text: its maximal runs of [a-z0-9], in order. *)
Definition words (s : pystr) : list pystr :=
  (List.filter (λ br : bool * pystr, br.1) (runs is_alnum s)).*2.

(** [" ".join(ws)]. *)
Fixpoint join_words (ws : list pystr) : pystr :=
  match ws with
  | [] => []
  | [w] => w
  | w :: rest => w ++ 32%N :: join_words rest
  end.

(** [sub] occurs in [s] as a contiguous piece. *)
Definition substring (sub s : pystr) : Prop := ∃ l r, s = l ++ sub ++ r.

(** The column a list of candidate names selects: for the first candidate
    that is the lower-cased name of some column, the last such column. *)
Definition pick_column `{PyBuiltins} (cols cands : list pystr) : option pystr :=
  head (omap (λ cand, last (List.filter (λ c, bool_decide (str_lower c = cand)) cols))
             cands).


(** The text a catalogue value contributes to the combined text column, that
    is, what [.astype(str).fillna("")] makes of it: its [str()] when it is
    present; when it is missing, the empty text if [astype(str)] keeps
    missing values, and its [str()] if not. *)
Definition filled_text `{PyBuiltins, Pandas} (v : pyval) : pystr :=
  if isna v && astype_str_keeps_missing then [] else py_str v.

Section FurtherNotions.
Context `{PyBuiltins, Sklearn}.

(** The column [_load_data] takes the titles from. *)
Definition title_source (d : DataFrame) (c : pystr) : Prop :=
  if truthy (m_title (_detect_columns d))
  then m_title (_detect_columns d) = Some c
  else head (df_columns d) = Some c.

(** How one result is read off one catalogue row. *)
Definition hit_of_row (self : Recommender) (sims : list Q) (i : nat) (h : Hit)
  : Prop :=
  i < corpus_size self
  ∧ sims !! i = Some (score h)
  ∧ title h = default (PStr []) (cell (df self) (cps "__title__") i)
  ∧ (if truthy (rating_col self)
     then ∃ v, cell (df self) (default [] (rating_col self)) i = Some v
               ∧ if isna v then rating h = PNone else py_float v = Ok (rating h)
     else rating h = PNone)
  ∧ (if truthy (url_col self)
     then cell (df self) (default [] (url_col self)) i = Some (url h)
     else url h = PNone).

End FurtherNotions.

(** The words that mark a description column. *)
Definition description_words : list pystr :=
  [cps "desc"; cps "headline"; cps "subtitle"].

Definition names_description `{PyBuiltins} (c : pystr) : Prop :=
  Exists (λ w, substring w (str_lower c)) description_words.

(** * Reference implementations of the interfaces

    Executable stand-ins for the library calls: they show that the contracts
    above can be met and they run the examples.  Text handling agrees with
    Python on ASCII input; the scoring uses exact term-count weights in place
    of the library's floating-point TF-IDF weights. *)

Module Reference.

(** [str.lower] per code point: ASCII capitals, and the two code points
    outside ASCII whose lower case contains an ASCII letter (U+0130 and the
    Kelvin sign). *)
Definition lower_cp (c : N) : pystr :=
  if in_range 65 90 c then [c + 32]%N
  else if (c =? 0x130)%N then [105; 0x307]%N
  else if (c =? 0x212a)%N then [107]%N
  else [c].

Definition lower (s : pystr) : pystr := s ≫= lower_cp.

Fixpoint digits_of (fuel : nat) (n : N) (acc : pystr) : pystr :=
  match fuel with
  | O => acc
  | S fuel =>
      let acc := (48 + n mod 10)%N :: acc in
      if (n / 10 =? 0)%N then acc else digits_of fuel (n / 10)%N acc
  end.

Definition str_of_N (n : N) : pystr := digits_of (S (N.to_nat (N.log2 n))) n [].

Fixpoint fraction_digits (fuel : nat) (num den : N) : pystr :=
  match fuel with
  | O => []
  | S fuel =>
      (48 + num * 10 / den)%N ::
      (if ((num * 10) mod den =? 0)%N then []
       else fraction_digits fuel ((num * 10) mod den)%N den)
  end.

(** [str] of a float with a short decimal expansion. *)
Definition float_str (x : Q) : pystr :=
  let n := Z.abs_N (Qnum x) in
  let d := Npos (Qden x) in
  (if (Qnum x <? 0)%Z then [45%N] else [])
  ++ str_of_N (n / d) ++ [46%N] ++ fraction_digits 17 (n mod d)%N d.

(** [str] of an integer. *)
Definition int_str (n : Z) : pystr :=
  (if (n <? 0)%Z then [45%N] else []) ++ str_of_N (Z.abs_N n).

Fixpoint parse_digits (s : pystr) (acc : N) : option N :=
  match s with
  | [] => Some acc
  | c :: t =>
      if in_range 48 57 c then parse_digits t (acc * 10 + (c - 48))%N else None
  end.

Definition parse_natural (s : pystr) : option N :=
  match s with
  | [] => None
  | _ => parse_digits s 0
  end.

Definition split_sign (s : pystr) : bool * pystr :=
  match s with
  | 45%N :: t => (true, t)
  | 43%N :: t => (false, t)
  | _ => (false, s)
  end.

(** [int(s)] on decimal text. *)
Definition parse_int (s : pystr) : option Z :=
  let sb := split_sign (strip s) in
  (λ n, if sb.1 then (- Z.of_N n)%Z else Z.of_N n) <$> parse_natural sb.2.

Fixpoint split_point (s : pystr) : pystr * option pystr :=
  match s with
  | [] => ([], None)
  | 46%N :: t => ([], Some t)
  | c :: t => let r := split_point t in (c :: r.1, r.2)
  end.

(** [float(s)] on plain decimal text. *)
Definition parse_float (s : pystr) : option Q :=
  let sb := split_sign (strip s) in
  let parts := split_point sb.2 in
  let frac := default [] parts.2 in
  match parts.1 ++ frac with
  | [] => None
  | ds =>
      n ← parse_digits ds 0;
      let q := (Z.of_N n # Pos.of_nat (10 ^ length frac))%Q in
      Some (Qred (if sb.1 then - q else q))
  end.

(** Ascending order of the keys, decided on the cross products. *)
Definition key (a : list Q) (i : nat) : Q := default 0%Q (a !! i).

Definition key_le (a : list Q) (i j : nat) : Prop := (key a i <= key a j)%Q.

#[global] Instance key_le_dec a : RelDecision (key_le a) :=
  λ i j, decide (Qnum (key a i) * QDen (key a j) ≤ Qnum (key a j) * QDen (key a i))%Z.

Definition sort_indices (a : list Q) : list nat :=
  merge_sort (key_le a) (seq 0 (length a)).

Definition partition_indices (a : list Q) (kth : list nat) : result (list nat) :=
  if decide (Forall (λ k, k < length a) kth) then Ok (sort_indices a)
  else Raise ValueError.

(** Terms of a text: tokens of two or more word characters and, for the
    range (1, 2), pairs of neighbouring tokens. *)
Definition separator (c : N) : bool := negb (is_kept c) || (c =? 32)%N.

Definition tokens (s : pystr) : list pystr :=
  List.filter (λ t : pystr, 2 <=? length t)
    ((List.filter (λ br : bool * pystr, negb br.1) (runs separator s)).*2).

Definition bigrams (ts : list pystr) : list pystr :=
  zip_with (λ a b, a ++ [32%N] ++ b) ts (tail ts).

Definition terms (ngram : nat * nat) (s : pystr) : list pystr :=
  let ts := tokens s in
  (if (ngram.1 <=? 1) && (1 <=? ngram.2) then ts else [])
  ++ (if (ngram.1 <=? 2) && (2 <=? ngram.2) then bigrams ts else []).

Definition count_term (t : pystr) (ts : list pystr) : nat :=
  length (List.filter (λ u, bool_decide (u = t)) ts).

(** A row: the share of each vocabulary term among the known terms of the
    text. *)
Definition weigh (ngram : nat * nat) (vocab : list pystr) (s : pystr) : list Q :=
  let ts := terms ngram s in
  let counts := (λ t, count_term t ts) <$> vocab in
  let total := foldr plus 0 counts in
  (λ n, Qred (Z.of_nat n # Pos.of_nat total)) <$> counts.

Definition dot (x y : list Q) : Q :=
  Qred (foldr Qplus 0%Q (zip_with Qmult x y)).

Definition fit (ngram : nat * nat) (maxf : N) (docs : list pystr)
  : result ((nat * nat) * list pystr * list (list Q)) :=
  let vocab := take (N.to_nat maxf) (remove_dups (docs ≫= terms ngram)) in
  match vocab with
  | [] => Raise ValueError
  | _ => Ok (ngram, vocab, weigh ngram vocab <$> docs)
  end.

Definition kernel (X Y : list (list Q)) : list (list Q) :=
  (λ x, dot x <$> Y) <$> X.

(** The files of the host. *)
Definition courses_csv : DataFrame :=
  [ (cps "course_title",
      [PStr (cps "Intro to Python Programming");
       PStr (cps "Advanced Python Data Science");
       PStr (cps "Cooking Italian Food")]);
    (cps "url",
      [PStr (cps "https://example.org/intro");
       PStr (cps "https://example.org/advanced");
       PStr (cps "https://example.org/cooking")]);
    (cps "rating", [PNum 4.5; PNaN; PNum 3.9]) ].

Definition gaps_csv : DataFrame :=
  [ (cps "course_title", [PStr (cps "python")]);
    (cps "url", [PNaN]);
    (cps "rating", [PNaN]);
    (cps "headline", [PNaN]) ].

Definition open_csv (path : pystr) : result DataFrame :=
  if decide (path = cps "../data/udemy_courses.csv") then Ok courses_csv
  else if decide (path = cps "gaps.csv") then Ok gaps_csv
  else Raise FileNotFoundError.

End Reference.

(** * The similarity index in binary64 arithmetic

    scikit-learn computes the TF-IDF weights and the kernel in IEEE-754
    binary64 numbers.  Its code is not part of the repository; the index is
    modelled from the description of the similarity index, every arithmetic
    step being the binary64 operation.  The natural logarithm is the one
    function of the formulas that binary64 arithmetic does not fix (it is
    the [log] of the C library); the model takes it as a parameter. *)

Module Binary64.
Import PrimFloat.PrimFloatNotations.

Abbreviation float := PrimFloat.float.

(** The binary64 number of a count. *)
Definition of_nat (n : nat) : float :=
  PrimFloat.of_uint63 (Uint63.of_Z (Z.of_nat n)).

(** The rational a binary64 number denotes.  An infinity and a NaN denote
    none and are read as 0. *)
Definition SF_to_Q (x : SpecFloat.spec_float) : Q :=
  match x with
  | SpecFloat.S754_finite s m e =>
      let n := if s then Zneg m else Zpos m in
      match e with
      | Zneg p => n # (2 ^ p)
      | _ => inject_Z (n * 2 ^ e)
      end
  | _ => 0
  end.

Definition to_Q (x : float) : Q := SF_to_Q (FloatOps.Prim2SF x).

(** Modelled from the spec: the tokenizer of scikit-learn is missing;
    "tokenize each Cleaned Text into unigrams and bigrams of
    whitespace-delimited tokens". *)
Definition tokens (s : pystr) : list pystr :=
  (List.filter (λ br : bool * pystr, negb br.1) (runs is_space s)).*2.

Definition terms (ngram : nat * nat) (s : pystr) : list pystr :=
  let ts := tokens s in
  (if (ngram.1 <=? 1) && (1 <=? ngram.2) then ts else [])
  ++ (if (ngram.1 <=? 2) && (2 <=? ngram.2)
      then zip_with (λ a b, a ++ [32%N] ++ b) ts (tail ts) else []).

(** Term frequency in a document, and the number of documents that contain
    a term. *)
Definition count_term (t : pystr) (ts : list pystr) : nat :=
  length (List.filter (λ u, bool_decide (u = t)) ts).

Definition doc_freq (docs : list (list pystr)) (t : pystr) : nat :=
  length (List.filter (λ ts, bool_decide (t ∈ ts)) docs).

Definition more_frequent (docs : list (list pystr)) (a b : pystr) : Prop :=
  doc_freq docs b ≤ doc_freq docs a.

#[global] Instance more_frequent_dec docs : RelDecision (more_frequent docs) :=
  λ a b, decide (doc_freq docs b ≤ doc_freq docs a).

(** Modelled from the spec: the vocabulary selection of scikit-learn is
    missing; "vocabulary = union of all unigrams/bigrams observed across the
    corpus, capped at a fixed maximum dimensionality; when the cap is
    exceeded, retain the highest document-frequency-weighted terms". *)
Definition vocabulary (maxf : N) (docs : list (list pystr)) : list pystr :=
  let all := remove_dups (concat docs) in
  if decide (length all ≤ N.to_nat maxf) then all
  else take (N.to_nat maxf) (merge_sort (more_frequent docs) all).

(** Modelled from the spec: the row normalisation of scikit-learn is
    missing; "L2 row normalization per document vector".  A vector of norm
    zero is left as it is ("they degrade to empty/zero"). *)
Definition l2_normalize (v : list float) : list float :=
  let norm := PrimFloat.sqrt (foldl (λ acc x, acc + x * x)%float PrimFloat.zero v) in
  if (norm =? PrimFloat.zero)%float then v else (λ x, x / norm)%float <$> v.

(** Modelled from the spec: the kernel of scikit-learn is missing; "because
    both are L2-normalized, cosine similarity reduces to a dot product". *)
Definition dot (u v : list float) : float :=
  foldl (λ acc ab, acc + ab.1 * ab.2)%float PrimFloat.zero (zip u v).

(** Modelled from the spec: the term weighting of scikit-learn is missing;
    "per-term weight = term-frequency in document × inverse-document-frequency
    across the corpus", followed by the row normalisation; a term outside
    the vocabulary contributes nothing. *)
Definition weigh (ngram : nat * nat) (vocab : list pystr) (idfs : list float)
    (s : pystr) : list float :=
  let ts := terms ngram s in
  l2_normalize (zip_with (λ t w, of_nat (count_term t ts) * w)%float vocab idfs).

Section Index.
Variable log : float → float.

(** Modelled from the spec: the inverse document frequency of scikit-learn
    is missing; "idf = log((1 + N) / (1 + document_count_containing_term))
    + 1, with N = corpus size". *)
Definition idf (n df : nat) : float :=
  (log (of_nat (1 + n) / of_nat (1 + df)) + PrimFloat.one)%float.

(** Building the index: the vocabulary, the weight of each of its terms,
    and one weighted vector per document. *)
Definition fit (ngram : nat * nat) (maxf : N) (docs : list pystr)
  : result ((nat * nat) * list pystr * list float * list (list float)) :=
  let dts := terms ngram <$> docs in
  let vocab := vocabulary maxf dts in
  let idfs := (λ t, idf (length docs) (doc_freq dts t)) <$> vocab in
  Ok (ngram, vocab, idfs, weigh ngram vocab idfs <$> docs).

End Index.

(** Projecting texts into the fixed vocabulary. *)
Definition transform (v : (nat * nat) * list pystr * list float)
    (docs : list pystr) : list (list float) :=
  weigh v.1.1 v.1.2 v.2 <$> docs.

Definition kernel (X Y : list (list float)) : list (list Q) :=
  (λ x, (λ y, to_Q (dot x y)) <$> Y) <$> X.

(** A stand-in for the logarithm of the C library, to run examples: the
    argument is reduced to [1, 2) and the logarithm of the reduced argument
    is summed from the series of the inverse hyperbolic tangent.  It is
    exact at 1. *)
Fixpoint atanh_series (fuel : nat) (k zk z2 acc : float) : float :=
  match fuel with
  | O => acc
  | S fuel => atanh_series fuel (k + PrimFloat.two) (zk * z2) z2 (acc + zk / k)
  end%float.

Definition of_Z (z : Z) : float :=
  if (z <? 0)%Z then (- PrimFloat.of_uint63 (Uint63.of_Z (- z)))%float
  else PrimFloat.of_uint63 (Uint63.of_Z z).

Definition ln2 : float :=
  Eval vm_compute in
    FloatOps.SF2Prim (SpecFloat.S754_finite false 6243314768165359 (-53)).

Definition ln (x : float) : float :=
  let me := FloatOps.Z.frexp x in
  let m := (me.1 * PrimFloat.two)%float in
  let z := ((m - PrimFloat.one) / (m + PrimFloat.one))%float in
  (PrimFloat.two * atanh_series 30 PrimFloat.one z (z * z) PrimFloat.zero
   + of_Z (me.2 - 1) * ln2)%float.

End Binary64.

(** * Properties of the normaliser *)

Section Regex.
Variable cls : N → bool.
Variable repl : pystr.

(** What is left of a run decomposition once a leading class run is gone:
    this is where the scanner stands while it is inside a match. *)
Definition behind_match (rs : list (bool * pystr)) : list (bool * pystr) :=
  match rs with
  | (true, _) :: rest => rest
  | _ => rs
  end.

Definition render (rs : list (bool * pystr)) : pystr :=
  concat ((λ br : bool * pystr, if br.1 then repl else br.2) <$> rs).

Lemma runs_cons c t :
  runs cls (c :: t) =
    match runs cls t with
    | (b, r) :: rest =>
        if Bool.eqb (cls c) b then (b, c :: r) :: rest
        else (cls c, [c]) :: (b, r) :: rest
    | [] => [(cls c, [c])]
    end.
Proof. reflexivity. Qed.

Lemma scanner_runs s :
  re_sub_plus cls repl s = render (runs cls s)
  ∧ re_skip cls repl s = render (behind_match (runs cls s)).
Proof.
  induction s as [|c t [IHsub IHskip]]; [done|].
  rewrite runs_cons. cbn [re_sub_plus re_skip].
  rewrite IHsub, IHskip. clear IHsub IHskip.
  destruct (cls c) eqn:Hc, (runs cls t) as [|[[] r] rest]; cbn;
    rewrite ?app_nil_r; done.
Qed.

Lemma re_sub_plus_runs s : re_sub_plus cls repl s = replace_runs cls repl s.
Proof. apply scanner_runs. Qed.

(** The decomposition is into the maximal runs: it concatenates back to the
    string, no run is empty, a run is uniformly inside or outside the class,
    and neighbouring runs differ in that. *)
Lemma runs_concat s : concat ((runs cls s).*2) = s.
Proof.
  induction s as [|c t IH]; [done|].
  rewrite runs_cons. destruct (runs cls t) as [|[b r] rest]; cbn in *.
  - by rewrite <- IH.
  - destruct (Bool.eqb (cls c) b); cbn; by rewrite <- IH.
Qed.

Lemma runs_uniform s :
  Forall (λ br : bool * pystr, br.2 ≠ [] ∧ Forall (λ c, cls c = br.1) br.2)
         (runs cls s).
Proof.
  induction s as [|c t IH]; [constructor|].
  rewrite runs_cons. destruct (runs cls t) as [|[b r] rest].
  - repeat constructor; done.
  - destruct (Bool.eqb (cls c) b) eqn:Hb.
    + apply Bool.eqb_prop in Hb. inversion IH as [|? ? [_ Hr] Hrest]; subst.
      constructor; [|done]. split; [done|]. by constructor.
    + constructor; [|done]. split; [done|]. by repeat constructor.
Qed.

Lemma runs_alternate s i b1 r1 b2 r2 :
  runs cls s !! i = Some (b1, r1) → runs cls s !! S i = Some (b2, r2) → b1 ≠ b2.
Proof.
  revert i b1 r1 b2 r2.
  induction s as [|c t IH]; intros i b1 r1 b2 r2; [done|].
  rewrite runs_cons. destruct (runs cls t) as [|[b r] rest] eqn:Ht.
  - done.
  - destruct (Bool.eqb (cls c) b) eqn:Hb.
    + destruct i as [|i]; cbn.
      * intros [= <- <-] H2. by apply (IH 0 b r b2 r2).
      * intros H1 H2. by apply (IH (S i) b1 r1 b2 r2).
    + destruct i as [|i]; cbn.
      * intros [= <- <-] [= <- <-]. intros E.
        by rewrite E, Bool.eqb_reflx in Hb.
      * intros H1 H2. by apply (IH i b1 r1 b2 r2).
Qed.

(** Characters of the result come from the input or from [repl]. *)
Lemma scanner_Forall (P : N → Prop) s :
  Forall P repl → Forall (λ c, cls c = false → P c) s →
  Forall P (re_sub_plus cls repl s) ∧ Forall P (re_skip cls repl s).
Proof.
  intros Hrepl. induction 1 as [|c t Hc _ [IHsub IHskip]]; [done|].
  cbn. destruct (cls c) eqn:E.
  - split; [by apply Forall_app|done].
  - split; constructor; auto.
Qed.

(** Where nothing is in the class, nothing is replaced. *)
Lemma re_sub_plus_none s :
  Forall (λ c, cls c = false) s → re_sub_plus cls repl s = s.
Proof. induction 1 as [|c t Hc _ IH]; [done|]. cbn. by rewrite Hc, IH. Qed.

End Regex.

(** ** [strip] *)

Lemma dropwhile_split {A} (p : A → bool) l :
  ∃ pre, l = pre ++ dropwhile p l ∧ Forall (λ x, p x = true) pre.
Proof.
  induction l as [|x t (pre & Ht & Hpre)]; [by exists []|].
  cbn. destruct (p x) eqn:Hx.
  - exists (x :: pre). split; [by rewrite <- app_comm_cons, <- Ht | by constructor].
  - by exists [].
Qed.

Lemma dropwhile_head {A} (p : A → bool) l x :
  head (dropwhile p l) = Some x → p x = false.
Proof.
  induction l as [|y t IH]; [done|]. cbn. destruct (p y) eqn:Hy; [done|].
  by intros [= <-].
Qed.

Lemma dropwhile_all {A} (p : A → bool) pre l :
  Forall (λ x, p x = true) pre → dropwhile p (pre ++ l) = dropwhile p l.
Proof. induction 1 as [|x t Hx _ IH]; [done|]. cbn. by rewrite Hx. Qed.

Lemma dropwhile_stop {A} (p : A → bool) l :
  (∀ x, head l = Some x → p x = false) → dropwhile p l = l.
Proof. destruct l as [|x t]; [done|]. intros Hh. cbn. by rewrite (Hh x). Qed.

Lemma strip_trimmed s : trimmed_of s (strip s).
Proof.
  unfold strip, rstrip, lstrip.
  destruct (dropwhile_split is_space s) as (l & Hl & Hlsp).
  set (u := dropwhile is_space s) in *.
  destruct (dropwhile_split is_space (reverse u)) as (r & Hr & Hrsp).
  set (w := dropwhile is_space (reverse u)) in *.
  assert (Hu : u = reverse w ++ reverse r).
  { by rewrite <- reverse_app, <- Hr, reverse_involutive. }
  exists l, (reverse r). repeat split.
  - by rewrite <- Hu.
  - done.
  - by apply Forall_reverse.
  - intros c Hc. apply (dropwhile_head is_space s). fold u. rewrite Hu.
    destruct (reverse w); [done|]. done.
  - intros c Hc. rewrite last_reverse in Hc. by apply (dropwhile_head _ _ _ Hc).
Qed.

Lemma trimmed_strip s t : trimmed_of s t → t = strip s.
Proof.
  intros (l & r & -> & Hl & Hr & Hhead & Hlast).
  unfold strip, rstrip, lstrip. rewrite dropwhile_all by done.
  destruct t as [|c t'] eqn:Et.
  - cbn. destruct (dropwhile_split is_space r) as (pre & Hpre & _).
    rewrite <- (app_nil_r r) at 1. rewrite dropwhile_all by done. done.
  - rewrite <- Et in *. rewrite (dropwhile_stop is_space (t ++ r)).
    + rewrite reverse_app, dropwhile_all by by apply Forall_reverse.
      rewrite dropwhile_stop; [by rewrite reverse_involutive|].
      intros x Hx. apply Hlast. by rewrite <- head_reverse.
    + intros x Hx. apply Hhead. subst t. by cbn in *.
Qed.

(** ** Normal form *)

Lemma kept_space c : is_kept c = true → is_space c = true → c = 32%N.
Proof.
  unfold is_kept, is_space, in_range. intros Hk Hs.
  repeat match goal with
  | H : _ || _ = true |- _ => apply orb_true_iff in H as [H|H]
  | H : _ && _ = true |- _ => apply andb_true_iff in H as [H ?]
  | H : (_ <=? _)%N = true |- _ => apply N.leb_le in H
  | H : (_ =? _)%N = true |- _ => apply N.eqb_eq in H
  end; lia.
Qed.

Lemma no_double_space_app l r :
  no_double_space (l ++ r) = true →
  no_double_space l = true ∧ no_double_space r = true.
Proof.
  induction l as [|c t IH]; [done|]. cbn.
  intros [Hc Ht]%andb_true_iff. destruct (IH Ht) as [IHl IHr].
  split; [|done]. rewrite IHl, andb_true_r.
  destruct (is_space c); [|done]. destruct t as [|d t']; [done|]. done.
Qed.

Lemma collapse_no_double s :
  no_double_space (re_sub_plus is_space [32%N] s) = true
  ∧ no_double_space (re_skip is_space [32%N] s) = true
  ∧ starts_space (re_skip is_space [32%N] s) = false.
Proof.
  induction s as [|c t (IHsub & IHskip & IHhead)]; [done|].
  cbn [re_sub_plus re_skip]. destruct (is_space c) eqn:Hc;
    cbn [app no_double_space starts_space].
  - by rewrite IHhead, IHskip.
  - by rewrite Hc, IHsub.
Qed.

Lemma collapse_fixed s :
  Forall (λ c, is_kept c = true) s → no_double_space s = true →
  re_sub_plus is_space [32%N] s = s
  ∧ (starts_space s = false → re_skip is_space [32%N] s = s).
Proof.
  induction 1 as [|c t Hc _ IH]; [done|].
  cbn [no_double_space re_sub_plus re_skip starts_space].
  intros [Hpair Ht]%andb_true_iff. destruct (IH Ht) as [IHsub IHskip].
  destruct (is_space c) eqn:Hsp; cbn [app].
  - rewrite (kept_space c Hc Hsp). split; [|done].
    rewrite IHskip; [done|]. by destruct (starts_space t).
  - by rewrite IHsub.
Qed.

Lemma trimmed_normalized s t :
  trimmed_of s t → Forall (λ c, is_kept c = true) s →
  no_double_space s = true → normalized t = true.
Proof.
  intros (l & r & -> & _ & _ & Hhead & Hlast) Hk Hd.
  apply Forall_app in Hk as [_ [Hk _]%Forall_app].
  apply no_double_space_app in Hd as [_ [Hd _]%no_double_space_app].
  unfold normalized. rewrite Hd, andb_true_r.
  rewrite (proj2 (forallb_forall _ _)); cbn.
  - assert (starts_space t = false) as ->.
    { destruct t as [|c t']; [done|]. by apply Hhead. }
    assert (starts_space (reverse t) = false) as ->; [|done].
    destruct (reverse t) as [|c u] eqn:E; [done|]. apply Hlast.
    by rewrite <- head_reverse, E.
  - intros c Hin. apply list_elem_of_In in Hin.
    by apply (proj1 (Forall_forall _ _) Hk).
Qed.

Section Normaliser.
Context `{PyBuiltins}.

Lemma clean_text_unfold v :
  isna v = false →
  _clean_text v =
    strip (re_sub_plus is_space [32%N]
             (re_sub_plus not_kept [32%N] (str_lower (py_str v)))).
Proof. unfold _clean_text. by intros ->. Qed.

Lemma replaced_kept s :
  Forall (λ c, is_kept c = true) (re_sub_plus not_kept [32%N] s).
Proof.
  apply scanner_Forall; [by repeat constructor|].
  apply Forall_forall. intros c _. unfold not_kept. by destruct (is_kept c).
Qed.

Lemma clean_text_normalized v : normalized (_clean_text v) = true.
Proof.
  destruct (isna v) eqn:Hna; [unfold _clean_text; by rewrite Hna|].
  rewrite clean_text_unfold by done.
  eapply trimmed_normalized; [apply strip_trimmed| |apply collapse_no_double].
  apply scanner_Forall; [by repeat constructor|].
  eapply Forall_impl; [apply replaced_kept|]. by intros c Hc _.
Qed.

Lemma clean_text_fixed s : normalized s = true → _clean_text (PStr s) = s.
Proof.
  unfold normalized.
  intros [[[Hk Hhead]%andb_true_iff Hlast]%andb_true_iff Hd]%andb_true_iff.
  apply negb_true_iff in Hhead, Hlast.
  assert (Hk' : Forall (λ c, is_kept c = true) s).
  { apply Forall_forall. intros c Hc. apply list_elem_of_In in Hc.
    by apply (proj1 (forallb_forall _ _) Hk). }
  rewrite clean_text_unfold by done. cbn [py_str].
  rewrite str_lower_kept by done.
  rewrite (re_sub_plus_none not_kept).
  2:{ eapply Forall_impl; [exact Hk'|]. intros c Hc. unfold not_kept. by rewrite Hc. }
  rewrite (proj1 (collapse_fixed s Hk' Hd)).
  symmetry. apply trimmed_strip. exists [], []. rewrite app_nil_r.
  repeat split; try done.
  - intros c Hc. destruct s; [done|]. by injection Hc as <-.
  - intros c Hc. rewrite <- head_reverse in Hc.
    destruct (reverse s); [done|]. by injection Hc as <-.
Qed.

End Normaliser.

(** * Exceptions and index arrays *)

Lemma bind_Ok {A B} (m : result A) (f : A → result B) b :
  m ≫= f = Ok b ↔ ∃ a, m = Ok a ∧ f a = Ok b.
Proof.
  destruct m as [a|e]; cbn; split.
  - intros Hf. by exists a.
  - by intros (a' & [= <-] & Hf).
  - done.
  - by intros (a' & [=] & _).
Qed.

Section ResultMonad.
Context {A B : Type}.

Lemma mapM_cons (f : A → result B) x l :
  mapM f (x :: l) = y ← f x; k ← mapM f l; Ok (y :: k).
Proof. reflexivity. Qed.

Lemma mapM_Ok (f : A → result B) l r :
  mapM f l = Ok r ↔ Forall2 (λ x y, f x = Ok y) l r.
Proof.
  revert r. induction l as [|x l IH]; intros r.
  - cbn. split; [by intros [= <-]|]. by inversion 1.
  - rewrite mapM_cons. split.
    + intros (y & Hy & (k & Hk & [= <-])%bind_Ok)%bind_Ok.
      constructor; [done|]. by apply IH.
    + inversion 1 as [|? y ? k Hy Hk]; subst.
      apply bind_Ok. exists y. split; [done|].
      apply bind_Ok. exists k. split; [by apply IH|done].
Qed.

Lemma mapM_total (f : A → result B) l :
  Forall (λ x, ∃ y, f x = Ok y) l → ∃ r, mapM f l = Ok r.
Proof.
  induction 1 as [|x l [y Hy] _ [k Hk]]; [by exists []|].
  exists (y :: k). rewrite mapM_cons, Hy. cbn. by rewrite Hk.
Qed.

End ResultMonad.

Section IndexArrays.
Context {A : Type}.
Implicit Types (a : list A) (idx : list nat).

Lemma take_idx_Ok a idx r :
  take_idx a idx = Ok r ↔ Forall2 (λ i x, a !! i = Some x) idx r.
Proof.
  unfold take_idx. rewrite mapM_Ok. split; intros Hf.
  - eapply Forall2_impl; [exact Hf|]. intros i x. unfold list_item.
    destruct (a !! i); [by intros [= <-]|done].
  - eapply Forall2_impl; [exact Hf|]. intros i x. unfold list_item. by intros ->.
Qed.

Lemma take_idx_total a idx :
  Forall (λ i, i < length a) idx → ∃ r, take_idx a idx = Ok r.
Proof.
  intros Hb. apply mapM_total. eapply Forall_impl; [exact Hb|].
  intros i [x Hx]%lookup_lt_is_Some. exists x. unfold list_item. by rewrite Hx.
Qed.

Lemma gather_Forall2 a idx r :
  Forall2 (λ i x, a !! i = Some x) idx r → gather a idx = r.
Proof.
  unfold gather. induction 1 as [|i x idx r Hi _ IH]; [done|].
  cbn. by rewrite Hi, IH.
Qed.

Lemma gather_shift pre a :
  gather (pre ++ a) (seq (length pre) (length a)) = a.
Proof.
  revert pre. induction a as [|x a IH]; intros pre; [done|].
  unfold gather in *. cbn. rewrite lookup_app_r, Nat.sub_diag by lia. cbn.
  f_equal. specialize (IH (pre ++ [x])).
  rewrite <- app_assoc, length_app in IH. cbn in IH.
  by rewrite Nat.add_1_r in IH.
Qed.

Lemma gather_range a : gather a (seq 0 (length a)) = a.
Proof. apply (gather_shift []). Qed.

Lemma gather_permutation a idx :
  idx ≡ₚ seq 0 (length a) → gather a idx ≡ₚ a.
Proof.
  intros Hp. unfold gather. rewrite Hp. fold (gather a (seq 0 (length a))).
  by rewrite gather_range.
Qed.

End IndexArrays.

Lemma gather_fmap {A B} (f : A → B) (a : list A) idx :
  gather (f <$> a) idx = f <$> gather a idx.
Proof.
  unfold gather. induction idx as [|i idx IH]; [done|].
  cbn. rewrite list_lookup_fmap. destruct (a !! i); cbn; by rewrite IH.
Qed.

(** A sorted list of negated scores is a descending list of scores. *)
Lemma Sorted_Qle_lookup (l : list Q) i x y :
  Sorted Qle l → l !! i = Some x → l !! S i = Some y → (x <= y)%Q.
Proof.
  intros Hs. revert i. induction Hs as [|z l _ IH Hhd]; intros i; [done|].
  destruct i as [|i]; cbn.
  - intros [= <-] Hy. destruct Hhd as [|w l Hzw]; [done|].
    cbn in Hy. by injection Hy as <-.
  - apply IH.
Qed.

Lemma negated_sorted_descending (scores : list Q) :
  Sorted Qle (Qopp <$> scores) → descending scores.
Proof.
  intros Hs i a b Ha Hb.
  pose proof (Sorted_Qle_lookup (Qopp <$> scores) i (- a) (- b) Hs) as Hle.
  rewrite !list_lookup_fmap, Ha, Hb in Hle. specialize (Hle eq_refl eq_refl).
  apply Qopp_le_compat in Hle. by rewrite !Qopp_involutive in Hle.
Qed.

(** * The query *)

Lemma assoc_fmap {A B} (f : A → B) k (l : list (pystr * A)) :
  assoc k ((λ kv : pystr * A, (kv.1, f kv.2)) <$> l) = f <$> assoc k l.
Proof.
  induction l as [|[k' v] l IH]; [done|]. cbn. by destruct (decide (k = k')).
Qed.

Lemma assoc_elem_of {A} k (l : list (pystr * A)) v :
  assoc k l = Some v → v ∈ l.*2.
Proof.
  induction l as [|[k' w] l IH]; [done|]. cbn.
  destruct (decide (k = k')); [intros [= <-]; left|right; auto].
Qed.

Lemma rectangular_col (d : DataFrame) name col :
  rectangular d → df_col d name = Ok col → length col = df_len d.
Proof.
  intros Hrect. unfold df_col. destruct (assoc name d) as [c|] eqn:E; [|done].
  intros [= <-]. rewrite (Hrect c (assoc_elem_of _ _ _ E)).
  unfold df_len. by destruct d as [|[]].
Qed.

Section Query.
Context `{PyBuiltins, Pandas, Sklearn, NumPy}.

Lemma similarities_length self q :
  length (similarities self q) = n_rows (tfidf_matrix self).
Proof.
  unfold similarities.
  pose proof (linear_kernel_rows (tfidf_transform (vectorizer self) [q])
                (tfidf_matrix self)) as Hrows.
  pose proof (linear_kernel_cols (tfidf_transform (vectorizer self) [q])
                (tfidf_matrix self)) as Hcols.
  rewrite transform_rows in Hrows.
  destruct (linear_kernel _ _) as [|r [|]]; try done.
  cbn. rewrite app_nil_r. by inversion Hcols.
Qed.

Lemma recommend_empty_text self query top_n :
  _clean_text query = [] → recommend self query top_n = Ok [].
Proof. intros Hq. unfold recommend. by rewrite Hq. Qed.

Lemma recommend_unfold self query top_n :
  _clean_text query ≠ [] → similarities self (_clean_text query) ≠ [] →
  recommend self query top_n =
    top_indices (similarities self (_clean_text query)) top_n
    ≫= mapM (make_hit self (similarities self (_clean_text query))).
Proof.
  intros Hq Hs. unfold recommend. fold (similarities self (_clean_text query)).
  destruct (decide (_clean_text query = [])); [done|].
  destruct (decide (length _ = 0)) as [Hl|]; [|done].
  by destruct (similarities self (_clean_text query)).
Qed.

(** *** Selection *)

Lemma top_indices_inv sims top_n final :
  top_indices sims top_n = Ok final →
  ∃ part sel,
    argpartition (Qopp <$> sims)
      (seq 0 (Z.to_nat (Z.min (Z.max 1 top_n) (Z.of_nat (length sims))))) = Ok part
    ∧ Forall2 (λ i x, sims !! i = Some x) (take (Z.to_nat (Z.max 1 top_n)) part) sel
    ∧ Forall2 (λ o i, take (Z.to_nat (Z.max 1 top_n)) part !! o = Some i)
              (argsort (Qopp <$> sel)) final.
Proof.
  unfold top_indices.
  intros (part & Hpart & (sel & Hsel & Hfinal)%bind_Ok)%bind_Ok.
  exists part, sel. by rewrite <- !take_idx_Ok.
Qed.

Lemma selected_scores (sims : list Q) top_idx sel order final scores :
  Forall2 (λ i x, sims !! i = Some x) top_idx sel →
  Forall2 (λ o i, top_idx !! o = Some i) order final →
  Forall2 (λ i y, sims !! i = Some y) final scores →
  gather sel order = scores.
Proof.
  intros Hsel Horder. revert scores.
  induction Horder as [|o i order final Ho _ IH]; intros scores Hsc.
  - by inversion Hsc.
  - inversion Hsc as [|? y ? scores' Hy Hsc']; subst.
    destruct (Forall2_lookup_l _ _ _ _ _ Hsel Ho) as (x & Hx & Hix).
    unfold gather in *. cbn. rewrite Hx. f_equal; [congruence|]. by apply IH.
Qed.

Lemma top_indices_descending sims top_n final scores :
  top_indices sims top_n = Ok final →
  Forall2 (λ i y, sims !! i = Some y) final scores →
  descending scores.
Proof.
  intros (part & sel & _ & Hsel & Hfinal)%top_indices_inv Hsc.
  apply negated_sorted_descending.
  rewrite <- (selected_scores _ _ _ _ _ _ Hsel Hfinal Hsc), <- gather_fmap.
  apply argsort_sorted.
Qed.

Lemma top_indices_total sims top_n :
  ∃ final, top_indices sims top_n = Ok final
    ∧ length final = Nat.min (Z.to_nat (Z.max 1 top_n)) (length sims)
    ∧ Forall (λ i, i < length sims) final
    ∧ (length sims ≤ Z.to_nat (Z.max 1 top_n) → final ≡ₚ seq 0 (length sims)).
Proof.
  unfold top_indices.
  set (k := Z.to_nat (Z.max 1 top_n)).
  destruct (argpartition_ok (Qopp <$> sims)
              (seq 0 (Z.to_nat (Z.min (Z.max 1 top_n) (Z.of_nat (length sims))))))
    as (part & -> & Hperm & _).
  { apply Forall_forall. intros j [_ Hj]%elem_of_seq.
    rewrite length_fmap. lia. }
  rewrite length_fmap in Hperm. cbn.
  assert (Hbound : Forall (λ i, i < length sims) (take k part)).
  { apply Forall_forall. intros i Hi%subseteq_take.
    rewrite Hperm in Hi. apply elem_of_seq in Hi. lia. }
  destruct (take_idx_total sims (take k part) Hbound) as [sel Hsel].
  rewrite Hsel. cbn. apply take_idx_Ok in Hsel.
  pose proof (argsort_perm (Qopp <$> sel)) as Horder.
  rewrite length_fmap, <- (Forall2_length _ _ _ Hsel) in Horder.
  destruct (take_idx_total (take k part) (argsort (Qopp <$> sel))) as [final Hfinal].
  { apply Forall_forall. intros o Ho. rewrite Horder in Ho.
    apply elem_of_seq in Ho. lia. }
  exists final. split; [done|]. apply take_idx_Ok in Hfinal.
  pose proof (gather_Forall2 _ _ _ Hfinal) as Hg.
  pose proof (gather_permutation _ _ Horder) as Hfp. rewrite Hg in Hfp.
  assert (Hlen : length (take k part) = Nat.min k (length sims)).
  { by rewrite length_take, (Permutation_length Hperm), length_seq. }
  repeat split.
  - by rewrite (Permutation_length Hfp).
  - by rewrite Hfp.
  - intros Hall. rewrite Hfp, take_ge; [done|].
    by rewrite (Permutation_length Hperm), length_seq.
Qed.

End Query.

(** *** Result assembly *)

Section Assembly.
Context `{PyBuiltins, Pandas, Sklearn, NumPy}.

Lemma df_iloc_Ok d i row :
  df_iloc d i = Ok row →
  i < df_len d ∧ ∀ name, assoc name row = cell d name i.
Proof.
  unfold df_iloc. destruct (decide (i < df_len d)); [|done].
  intros [= <-]. split; [done|]. intros name. unfold cell.
  by rewrite (assoc_fmap (λ col : Series, default PNaN (col !! i))).
Qed.

Lemma py_float_Ok v r :
  isna v = false → py_float v = Ok r → ∃ x, r = PNum x.
Proof.
  destruct v as [| |x|n|s]; cbn; try done.
  - intros _ [= <-]. by exists x.
  - intros _ [= <-]. by eexists.
  - intros _. destruct (float_of_str s) as [x|]; [|done].
    intros [= <-]. by exists x.
Qed.

Lemma make_hit_inv self sims idx h :
  make_hit self sims idx = Ok h →
  idx < corpus_size self
  ∧ sims !! idx = Some (score h)
  ∧ title h = default (PStr []) (cell (df self) (cps "__title__") idx)
  ∧ (if truthy (rating_col self)
     then ∃ v, cell (df self) (default [] (rating_col self)) idx = Some v
               ∧ if isna v then rating h = PNone else py_float v = Ok (rating h)
     else rating h = PNone)
  ∧ (if truthy (url_col self)
     then cell (df self) (default [] (url_col self)) idx = Some (url h)
     else url h = PNone).
Proof.
  unfold make_hit.
  intros (row & [Hidx Hrow]%df_iloc_Ok & (sc & Hsc & Hrest)%bind_Ok)%bind_Ok.
  apply bind_Ok in Hrest as (r & Hr & (u & Hu & [= <-])%bind_Ok). cbn.
  unfold list_item in Hsc. destruct (sims !! idx) as [x|]; [|done].
  injection Hsc as ->.
  split; [done|]. split; [done|]. split.
  { unfold row_get. by rewrite Hrow. }
  split.
  - destruct (truthy (rating_col self)); [|by injection Hr as <-].
    apply bind_Ok in Hr as (v & Hv & Hr). unfold row_item in Hv.
    rewrite Hrow in Hv. destruct (cell _ _ _) as [v'|]; [|done].
    injection Hv as ->. exists v. split; [done|].
    destruct (isna v); [by injection Hr as <-|done].
  - destruct (truthy (url_col self)); [|by injection Hu as <-].
    unfold row_item in Hu. rewrite Hrow in Hu.
    destruct (cell _ _ _) as [v'|]; [|done]. by injection Hu as ->.
Qed.

Lemma make_hit_total self sims idx :
  well_formed self → ratings_numeric self →
  idx < corpus_size self → idx < length sims →
  ∃ h, make_hit self sims idx = Ok h.
Proof.
  intros [Hrect _ Hrating Hurl] Hnum Hidx Hsims. unfold make_hit, df_iloc.
  fold (corpus_size self). destruct (decide (idx < corpus_size self)); [|done].
  cbn. apply lookup_lt_is_Some in Hsims as [x Hx]. unfold list_item.
  rewrite Hx. cbn.
  set (row := (λ kc : pystr * Series, (kc.1, default PNaN (kc.2 !! idx))) <$> df self).
  assert (Hcell : ∀ name, row_item row name =
            match assoc name (df self) with
            | Some col => Ok (default PNaN (col !! idx))
            | None => Raise KeyError
            end).
  { intros name. unfold row_item, row.
    rewrite (assoc_fmap (λ col : Series, default PNaN (col !! idx))).
    by destruct (assoc name (df self)). }
  assert (∃ r, (if truthy (rating_col self)
                then row_item row (default [] (rating_col self))
                     ≫= λ v, if isna v then Ok PNone else py_float v
                else Ok PNone) = Ok r) as [r ->].
  { destruct (truthy (rating_col self)) eqn:Ht; [|by eexists].
    rewrite Hcell. destruct (Hrating Ht) as [col Hcol]. rewrite Hcol. cbn.
    assert (Hdf : df_col (df self) (default [] (rating_col self)) = Ok col).
    { unfold df_col. by rewrite Hcol. }
    pose proof (rectangular_col _ _ _ Hrect Hdf) as Hlen.
    destruct (lookup_lt_is_Some_2 col idx) as [v Hv].
    { rewrite Hlen. exact Hidx. }
    rewrite Hv. cbn. destruct (isna v) eqn:Hna; [by eexists|].
    specialize (Hnum col Ht Hdf).
    apply (proj1 (Forall_lookup _ _) Hnum idx v Hv Hna). }
  cbn.
  assert (∃ u, (if truthy (url_col self)
                then row_item row (default [] (url_col self))
                else Ok PNone) = Ok u) as [u ->].
  { destruct (truthy (url_col self)) eqn:Ht; [|by eexists].
    rewrite Hcell. destruct (Hurl Ht) as [col ->]. by eexists. }
  cbn. by eexists.
Qed.

End Assembly.

(** * The loader establishes the invariant *)

Lemma assoc_is_Some {A} k (l : list (pystr * A)) :
  k ∈ l.*1 → is_Some (assoc k l).
Proof.
  induction l as [|[k' v] l IH]; [by intros ?%elem_of_nil|]. cbn.
  destruct (decide (k = k')); [by eexists|].
  intros [?|?]%elem_of_cons; [done|auto].
Qed.

Lemma df_set_assoc (d : DataFrame) name col k :
  is_Some (assoc k d) → is_Some (assoc k (df_set d name col)).
Proof.
  induction d as [|[k' c] d IH]; [by intros [? [=]]|]. cbn.
  destruct (decide (name = k')) as [->|]; cbn;
    destruct (decide (k = k')); eauto.
Qed.

Lemma df_set_same (d : DataFrame) name col :
  assoc name (df_set d name col) = Some col.
Proof.
  induction d as [|[k' c] d IH]; cbn.
  - by destruct (decide (name = name)).
  - destruct (decide (name = k')) as [->|]; cbn.
    + by destruct (decide (k' = k')).
    + by destruct (decide (name = k')).
Qed.

Lemma df_col_set_same (d : DataFrame) name col :
  df_col (df_set d name col) name = Ok col.
Proof. unfold df_col. by rewrite df_set_same. Qed.

Lemma df_set_lengths (d : DataFrame) name col n :
  (∀ c, c ∈ d.*2 → length c = n) → length col = n →
  ∀ c, c ∈ (df_set d name col).*2 → length c = n.
Proof.
  intros Hd Hcol. induction d as [|[k' c'] d IH]; cbn.
  - by intros c ->%list_elem_of_singleton.
  - destruct (decide (name = k')); cbn.
    + intros c [->|Hc]%elem_of_cons; [done|]. apply Hd. by right.
    + intros c [->|Hc]%elem_of_cons; [apply Hd; by left|].
      apply IH; [|done]. intros c'' Hc''. apply Hd. by right.
Qed.

Lemma rectangular_lengths (d : DataFrame) :
  rectangular d ↔ ∀ c, c ∈ d.*2 → length c = df_len d.
Proof. unfold rectangular, df_len. by destruct d as [|[]]. Qed.

Lemma df_set_rectangular (d : DataFrame) name col :
  d ≠ [] → rectangular d → length col = df_len d →
  rectangular (df_set d name col) ∧ df_len (df_set d name col) = df_len d.
Proof.
  intros Hne Hrect%rectangular_lengths Hlen.
  assert (Hfirst : df_len (df_set d name col) = df_len d).
  { destruct d as [|[k' c'] d]; [done|]. cbn.
    by destruct (decide (name = k')). }
  split; [|done]. apply rectangular_lengths. rewrite Hfirst.
  by apply df_set_lengths.
Qed.

Section Loader.
Context `{PyBuiltins, Pandas, Sklearn, NumPy}.

Lemma lowered_names_from_columns cols k c :
  lowered_names cols !! k = Some c → c ∈ cols.
Proof.
  unfold lowered_names.
  assert (Hgen : ∀ (m : gmap pystr pystr),
            foldl (λ m c, <[str_lower c := c]> m) m cols !! k = Some c →
            m !! k = Some c ∨ c ∈ cols).
  { induction cols as [|x cols IH]; intros m; cbn; [by left|].
    intros [Hm|Hin]%IH; [|right; by right].
    destruct (decide (str_lower x = k)) as [<-|Hne].
    - rewrite lookup_insert_eq in Hm. injection Hm as <-. right. by left.
    - rewrite lookup_insert_ne in Hm by done. by left. }
  intros [Hm|Hin]%Hgen; [done|done].
Qed.

Lemma first_candidate_from_columns cands cols c :
  first_candidate cands (lowered_names cols) = Some c → c ∈ cols.
Proof.
  induction cands as [|cand cands IH]; [done|]. cbn.
  destruct (lowered_names cols !! cand) as [c'|] eqn:E; [|done].
  intros [= <-]. by eapply lowered_names_from_columns.
Qed.

Lemma detected_has_column (d : DataFrame) cands name col :
  has_column (df_set d name col)
             (first_candidate cands (lowered_names (df_columns d))).
Proof.
  intros Ht. destruct (first_candidate _ _) as [c|] eqn:E; [|done].
  apply df_set_assoc, assoc_is_Some. by eapply first_candidate_from_columns.
Qed.

Lemma length_fillna x s : length (fillna x s) = length s.
Proof. apply length_fmap. Qed.

Lemma length_astype_str s : length (astype_str s) = length s.
Proof. apply length_fmap. Qed.

Lemma series_add_scalar_length s x r :
  series_add_scalar s x = Ok r → length r = length s.
Proof. intros Hr%mapM_Ok. symmetry. by eapply Forall2_length. Qed.

Lemma series_add_length s t r :
  series_add s t = Ok r → length r = Nat.min (length s) (length t).
Proof.
  intros Hr%mapM_Ok. rewrite <- (Forall2_length _ _ _ Hr). apply length_zip_with.
Qed.

Lemma build_text_shape (d : DataFrame) title_col desc_col d' combined :
  rectangular d → build_text d title_col desc_col = Ok (d', combined) →
  ∃ tcol, df_col d title_col = Ok tcol
    ∧ d' = df_set d (cps "__title__") (astype_str tcol)
    ∧ rectangular d' ∧ df_len d' = df_len d ∧ length combined = df_len d'.
Proof.
  intros Hrect. unfold build_text. generalize (cps "__title__"). intros tn.
  intros (tcol & Htcol & (t & Ht & Hrest)%bind_Ok)%bind_Ok.
  apply bind_Ok in Hrest as (c & Hc & [= <- <-]).
  exists tcol. split; [done|]. split; [done|].
  assert (Hne : d ≠ []) by (by intros ->).
  assert (Hlen : length (astype_str tcol) = df_len d).
  { rewrite length_astype_str. by eapply rectangular_col. }
  destruct (df_set_rectangular d tn _ Hne Hrect Hlen) as [Hr' Hl'].
  split; [done|]. split; [done|]. rewrite length_fmap.
  pose proof (rectangular_col _ _ _ Hr' Ht) as Htlen.
  destruct (truthy desc_col).
  - apply bind_Ok in Hc as (dcol & Hdcol & (c1 & Hc1 & Hadd)%bind_Ok).
    rewrite (series_add_length _ _ _ Hadd), (series_add_scalar_length _ _ _ Hc1).
    rewrite !length_fillna, length_astype_str, Htlen.
    rewrite (rectangular_col _ _ _ Hr' Hdcol). lia.
  - injection Hc as <-. by rewrite length_fillna.
Qed.

Lemma load_data_inv path fields self :
  _load_data path fields = Ok self →
  ∃ d title_col tcol combined fitted,
    read_csv path = Ok d
    ∧ title_source d title_col
    ∧ df_col d title_col = Ok tcol
    ∧ build_text d title_col (m_desc (_detect_columns d))
      = Ok (df_set d (cps "__title__") (astype_str tcol), combined)
    ∧ tfidf_fit_transform (1, 2) 20000%N combined = Ok fitted
    ∧ self = {| csv_path := path;
                df := df_set d (cps "__title__") (astype_str tcol);
                vectorizer := fitted.1; tfidf_matrix := fitted.2;
                text_fields := fields;
                url_col := m_url (_detect_columns d);
                rating_col := m_rating (_detect_columns d);
                mapping := _detect_columns d |}.
Proof.
  unfold _load_data.
  intros (d & Hd & (title_col & Htitle & Hrest)%bind_Ok)%bind_Ok.
  apply bind_Ok in Hrest as ([d' combined] & Hbuilt & (fitted & Hfit & [= <-])%bind_Ok).
  pose proof (read_csv_rectangular _ _ Hd) as Hrect.
  destruct (build_text_shape _ _ _ _ _ Hrect Hbuilt) as (tcol & Htcol & -> & _).
  exists d, title_col, tcol, combined, fitted. repeat split; try done.
  unfold title_source. destruct (truthy (m_title (_detect_columns d))) eqn:Ht.
  - destruct (m_title (_detect_columns d)) as [c|]; [|done].
    cbn in Htitle. by injection Htitle as <-.
  - destruct (head (df_columns d)); [|done]. by injection Htitle as <-.
Qed.

Lemma load_data_well_formed path fields self :
  _load_data path fields = Ok self → well_formed self.
Proof.
  unfold _load_data.
  intros (d & Hd & (title_col & _ & Hrest)%bind_Ok)%bind_Ok.
  apply bind_Ok in Hrest as ([d' combined] & Hbuilt & ([v X] & Hfit & [= <-])%bind_Ok).
  apply read_csv_rectangular in Hd.
  destruct (build_text_shape _ _ _ _ _ Hd Hbuilt) as (tcol & _ & -> & Hr & Hl & Hc).
  constructor; cbn [df tfidf_matrix rating_col url_col fst snd] in *.
  - done.
  - by rewrite (fit_transform_rows _ _ _ _ _ Hfit).
  - exact (detected_has_column d rating_candidates _ _).
  - exact (detected_has_column d url_candidates _ _).
Qed.

End Loader.

(** * The reference implementations meet the contracts *)

Module ReferenceLaws.
Import Reference.

Lemma lower_cp_kept c : is_kept c = true → lower_cp c = [c].
Proof.
  unfold is_kept, lower_cp, in_range. intros Hk.
  destruct (65 <=? c)%N eqn:H1, (c <=? 90)%N eqn:H2,
    (c =? 0x130)%N eqn:H3, (c =? 0x212a)%N eqn:H4; cbn; try done; exfalso;
  repeat match goal with
  | H : _ || _ = true |- _ => apply orb_true_iff in H as [H|H]
  | H : _ && _ = true |- _ => apply andb_true_iff in H as [H ?]
  | H : (_ <=? _)%N = true |- _ => apply N.leb_le in H
  | H : (_ =? _)%N = true |- _ => apply N.eqb_eq in H
  | H : (_ <=? _)%N = false |- _ => apply N.leb_gt in H
  | H : (_ =? _)%N = false |- _ => apply N.eqb_neq in H
  end; lia.
Qed.

Lemma lower_kept s : Forall (λ c, is_kept c = true) s → lower s = s.
Proof.
  induction 1 as [|c t Hc _ IH]; [done|].
  unfold lower in *. cbn. by rewrite lower_cp_kept, IH.
Qed.

#[global] Instance key_le_total a : Total (key_le a).
Proof.
  intros i j. unfold key_le.
  destruct (Qlt_le_dec (key a i) (key a j)) as [Hlt|Hle]; [left|by right].
  by apply Qlt_le_weak.
Qed.

#[global] Instance key_le_trans a : Transitive (key_le a).
Proof. intros i j k. unfold key_le. apply Qle_trans. Qed.

Lemma gather_key (a : list Q) p :
  Forall (λ i, i < length a) p → gather a p = key a <$> p.
Proof.
  unfold gather, key. induction 1 as [|i p Hi _ IH]; [done|].
  cbn. apply lookup_lt_is_Some in Hi as [x Hx]. by rewrite Hx, IH.
Qed.

Lemma sort_indices_perm a : sort_indices a ≡ₚ seq 0 (length a).
Proof. apply merge_sort_Permutation. Qed.

Lemma sort_indices_bound a : Forall (λ i, i < length a) (sort_indices a).
Proof.
  apply Forall_forall. intros i Hi. rewrite sort_indices_perm in Hi.
  apply elem_of_seq in Hi. lia.
Qed.

Lemma sort_indices_strongly a :
  StronglySorted Qle (gather a (sort_indices a)).
Proof.
  rewrite gather_key by apply sort_indices_bound.
  apply (StronglySorted_fmap _ (key_le a)); [done|].
  apply StronglySorted_merge_sort; apply _.
Qed.

Lemma sort_indices_sorted a : Sorted Qle (gather a (sort_indices a)).
Proof. apply StronglySorted_Sorted, sort_indices_strongly. Qed.

Lemma StronglySorted_Qle_lookup (l : list Q) i j x y :
  StronglySorted Qle l → i ≤ j → l !! i = Some x → l !! j = Some y → (x <= y)%Q.
Proof.
  intros Hs. revert i j. induction Hs as [|z l _ IH Hall]; intros i j; [done|].
  destruct i as [|i], j as [|j]; cbn; try lia.
  - intros _ [= <-] [= <-]. apply Qle_refl.
  - intros _ [= <-] Hy. apply (proj1 (Forall_forall _ _) Hall).
    by eapply list_elem_of_lookup_2.
  - intros Hij. apply IH. lia.
Qed.

Lemma partition_indices_ok a kth :
  Forall (λ k, k < length a) kth →
  ∃ p, partition_indices a kth = Ok p ∧ p ≡ₚ seq 0 (length a)
       ∧ Forall (partitioned_at a p) kth.
Proof.
  intros Hk. exists (sort_indices a). unfold partition_indices.
  destruct (decide _); [|done]. split; [done|]. split; [apply sort_indices_perm|].
  apply Forall_forall. intros k _ i j x y Hik Hkj Hx Hy.
  eapply (StronglySorted_Qle_lookup _ i j); eauto using sort_indices_strongly.
  lia.
Qed.

Lemma partition_indices_bounds a kth :
  ¬ Forall (λ k, k < length a) kth → partition_indices a kth = Raise ValueError.
Proof. intros Hk. unfold partition_indices. by destruct (decide _). Qed.

Lemma fit_rows ngram maxf docs v X :
  fit ngram maxf docs = Ok (v, X) → length X = length docs.
Proof.
  unfold fit. destruct (take _ _); [done|]. intros [= <- <-].
  by rewrite length_fmap.
Qed.

Lemma kernel_rows X Y : length (kernel X Y) = length X.
Proof. unfold kernel. by rewrite length_fmap. Qed.

Lemma kernel_cols X Y : Forall (λ r, length r = length Y) (kernel X Y).
Proof.
  unfold kernel. apply Forall_fmap, Forall_forall. intros x _. cbn.
  by rewrite length_fmap.
Qed.

Lemma open_csv_rectangular path d : open_csv path = Ok d → rectangular d.
Proof.
  unfold open_csv. repeat destruct (decide _); try done; intros [= <-];
    intros col Hcol; cbn in Hcol;
    repeat (apply elem_of_cons in Hcol as [->|Hcol]; [done|]);
    by apply elem_of_nil in Hcol.
Qed.

End ReferenceLaws.

#[global] Instance reference_builtins : PyBuiltins := {|
  str_lower := Reference.lower;
  str_of_float := Reference.float_str;
  str_of_int := Reference.int_str;
  float_of_str := Reference.parse_float;
  int_of_str := Reference.parse_int;
  str_lower_kept := ReferenceLaws.lower_kept
|}.

(** The files of the host read by a current pandas (3.0 or later). *)
#[global] Instance reference_pandas : Pandas := {|
  read_csv := Reference.open_csv;
  astype_str_keeps_missing := true;
  read_csv_rectangular := ReferenceLaws.open_csv_rectangular
|}.

(** The same files read by a pandas older than 3.0. *)
Definition legacy_pandas : Pandas := {|
  read_csv := Reference.open_csv;
  astype_str_keeps_missing := false;
  read_csv_rectangular := ReferenceLaws.open_csv_rectangular
|}.

#[global] Instance reference_sklearn : Sklearn := {|
  Vectorizer := (nat * nat) * list pystr;
  Matrix := list (list Q);
  n_rows := length;
  tfidf_fit_transform := Reference.fit;
  tfidf_transform := λ v docs, Reference.weigh v.1 v.2 <$> docs;
  linear_kernel := Reference.kernel;
  fit_transform_rows := ReferenceLaws.fit_rows;
  transform_rows := λ v docs, length_fmap _ docs;
  linear_kernel_rows := ReferenceLaws.kernel_rows;
  linear_kernel_cols := ReferenceLaws.kernel_cols
|}.

#[global] Instance reference_numpy : NumPy := {|
  argsort := Reference.sort_indices;
  argpartition := Reference.partition_indices;
  argsort_perm := ReferenceLaws.sort_indices_perm;
  argsort_sorted := ReferenceLaws.sort_indices_sorted;
  argpartition_ok := ReferenceLaws.partition_indices_ok;
  argpartition_bounds := ReferenceLaws.partition_indices_bounds
|}.

(** Objects loaded from the host files above, to run the examples on. *)
Module Samples.

Definition hollow : Recommender := {|
  csv_path := []; df := []; vectorizer := ((1, 2), []); tfidf_matrix := [];
  text_fields := PNone; url_col := None; rating_col := None;
  mapping := {| m_title := None; m_url := None; m_rating := None; m_desc := None |}
|}.

Definition loaded (path : string) : Recommender :=
  match _load_data (cps path) PNone with
  | Ok r => r
  | Raise _ => hollow
  end.

Definition courses : Recommender :=
  Eval vm_compute in loaded "../data/udemy_courses.csv".
Definition gaps : Recommender := Eval vm_compute in loaded "gaps.csv".

Lemma courses_loaded :
  _load_data (cps "../data/udemy_courses.csv") PNone = Ok courses.
Proof. vm_compute. reflexivity. Qed.

Lemma gaps_loaded : _load_data (cps "gaps.csv") PNone = Ok gaps.
Proof. vm_compute. reflexivity. Qed.

Lemma courses_well_formed : well_formed courses.
Proof. exact (load_data_well_formed _ _ _ courses_loaded). Qed.

Lemma courses_ratings_numeric : ratings_numeric courses.
Proof.
  intros col _ Hcol. vm_compute in Hcol. injection Hcol as <-.
  repeat constructor; intros _; eexists; reflexivity.
Qed.

End Samples.

(** * The normaliser: statement and idempotence *)

Section NormaliserClaims.
Context `{PyBuiltins}.

(** C1.  [_clean_text] returns the empty string for a null or NaN argument.
    For any other argument it lower-cases the text, replaces every maximal
    run of characters outside [a-z0-9 ] by one space, replaces every maximal
    run of white space by one space, and removes the white space at both
    ends: its result is the one string that is the trimming of the text so
    obtained.  The result depends on the argument only. *)
Theorem clean_text_spec (v : pyval) :
  if isna v then _clean_text v = []
  else ∀ t,
    _clean_text v = t ↔
    trimmed_of
      (replace_runs is_space (cps " ")
         (replace_runs not_kept (cps " ") (str_lower (py_str v)))) t.
Proof.
  destruct (isna v) eqn:Hna; [unfold _clean_text; by rewrite Hna|].
  intros t. rewrite clean_text_unfold by done.
  change (cps " ") with [32%N]. rewrite <- !re_sub_plus_runs. split.
  - intros <-. apply strip_trimmed.
  - intros Ht. symmetry. by apply trimmed_strip.
Qed.

(** C2.  Normalising a normalised string changes nothing. *)
Theorem clean_text_idempotent (v : pyval) :
  _clean_text (PStr (_clean_text v)) = _clean_text v.
Proof. apply clean_text_fixed, clean_text_normalized. Qed.

End NormaliserClaims.

Example clean_text_punctuation : _clean_text (PStr (cps "!!!???")) = [].
Proof. reflexivity. Qed.

Example clean_text_mixed :
  _clean_text (PStr (cps "  Hello,   World!! 2nd-Ed. ")) = cps "hello world 2nd ed".
Proof. reflexivity. Qed.

Example clean_text_missing : _clean_text PNone = [] ∧ _clean_text PNaN = [].
Proof. split; reflexivity. Qed.

(** * The query: empty text and order *)

Section QueryClaims.
Context `{PyBuiltins, Pandas, Sklearn, NumPy}.

(** C3.  When the normalised query text is empty, whatever the query value
    (a missing value, punctuation only, ...) and whatever [top_n],
    [recommend] returns the empty list and raises nothing. *)
Theorem recommend_empty_query (self : Recommender) (query : pyval) (top_n : Z) :
  _clean_text query = [] → recommend self query top_n = Ok [].
Proof. apply recommend_empty_text. Qed.

(** C5.  The sequence [recommend] returns is in decreasing order of score:
    each result scores at least as much as the next. *)
Theorem recommend_descending (self : Recommender) (query : pyval) (top_n : Z)
    (hits : list Hit) :
  recommend self query top_n = Ok hits → descending (score <$> hits).
Proof.
  unfold recommend. fold (similarities self (_clean_text query)).
  destruct (decide (_clean_text query = [])); [by intros [= <-] []|].
  destruct (decide (length _ = 0)); [by intros [= <-] []|].
  intros (final & Hfinal & Hhits%mapM_Ok)%bind_Ok.
  eapply top_indices_descending; [exact Hfinal|].
  apply Forall2_fmap_r. eapply Forall2_impl; [exact Hhits|].
  intros i h Hh. cbn in Hh. by apply make_hit_inv in Hh as (_ & Hs & _).
Qed.

End QueryClaims.

Lemma recommend_empty_query_witness :
  _clean_text (PStr (cps "!!!???")) = []
  ∧ recommend Samples.courses (PStr (cps "!!!???")) 7 = Ok [].
Proof.
  split; [reflexivity|]. apply recommend_empty_query. reflexivity.
Defined.

Example recommend_more_than_corpus :
  length <$> recommend Samples.courses (PStr (cps "python programming")) 100
  = Ok 3.
Proof. vm_compute. reflexivity. Qed.

Example recommend_clamps_top_n :
  length <$> recommend Samples.courses (PStr (cps "python programming")) (-5)
  = Ok 1.
Proof. vm_compute. reflexivity. Qed.

Example recommend_python_programming :
  (λ hits : list Hit, title <$> hits)
    <$> recommend Samples.courses (PStr (cps "python programming")) 2
  = Ok [PStr (cps "Intro to Python Programming");
        PStr (cps "Advanced Python Data Science")].
Proof. vm_compute. reflexivity. Qed.

Lemma recommend_descending_witness :
  ∃ hits,
    recommend Samples.courses (PStr (cps "python programming")) 2 = Ok hits
    ∧ score <$> hits = [1 # 7; 1 # 21]%Q
    ∧ descending (score <$> hits).
Proof.
  eexists. split; [vm_compute; reflexivity|]. split; [reflexivity|].
  eapply (recommend_descending Samples.courses (PStr (cps "python programming")) 2).
  vm_compute. reflexivity.
Defined.

(** * The loader: text construction *)

Section TextConstruction.
Context `{PyBuiltins, Pandas, Sklearn, NumPy}.

Lemma fillna_astype_str (col : Series) :
  fillna (PStr []) (astype_str col) = (λ v, PStr (filled_text v)) <$> col.
Proof.
  unfold fillna, astype_str. rewrite <- list_fmap_compose.
  apply list_fmap_ext. intros _ v _. unfold filled_text. cbn.
  by destruct (isna v && astype_str_keeps_missing).
Qed.

Lemma add_scalar_strings (f : pyval → pystr) (col : Series) (sp : pystr) :
  series_add_scalar ((λ v, PStr (f v)) <$> col) (PStr sp)
  = Ok ((λ t, PStr (f t ++ sp)) <$> col).
Proof.
  unfold series_add_scalar. apply mapM_Ok.
  induction col as [|t col IH]; cbn; by constructor.
Qed.

Lemma add_string_columns (f g : pyval → pystr) (tcol dcol : Series) :
  series_add ((λ t, PStr (f t)) <$> tcol) ((λ v, PStr (g v)) <$> dcol)
  = Ok (zip_with (λ t v, PStr (f t ++ g v)) tcol dcol).
Proof.
  unfold series_add. apply mapM_Ok. revert dcol.
  induction tcol as [|t tcol IH]; intros [|v dcol]; cbn; try by constructor.
Qed.

(** What the text construction computes, for either pandas: every value of
    the title column and of the description column contributes its
    [filled_text], and the two texts are joined by one space. *)
Lemma build_text_eval (d : DataFrame) title_col desc_col tcol :
  df_col d title_col = Ok tcol →
  build_text d title_col desc_col =
    let d' := df_set d (cps "__title__") (astype_str tcol) in
    if truthy desc_col then
      dcol ← df_col d' (default [] desc_col);
      Ok (d', zip_with
                (λ t v, _clean_text (PStr (filled_text t ++ cps " " ++ filled_text v)))
                tcol dcol)
    else Ok (d', (λ t, _clean_text (PStr (filled_text t))) <$> tcol).
Proof.
  intros Ht. unfold build_text. rewrite Ht. cbn [mbind result_bind].
  rewrite df_col_set_same. cbn [mbind result_bind].
  rewrite !fillna_astype_str. destruct (truthy desc_col).
  - destruct (df_col _ (default [] desc_col)) as [dcol|e]; [|done].
    cbn [mbind result_bind]. rewrite fillna_astype_str, add_scalar_strings.
    cbn [mbind result_bind]. rewrite add_string_columns. cbn [mbind result_bind].
    do 2 f_equal. clear Ht. generalize (cps " "). intros sp. revert dcol.
    induction tcol as [|t tcol IH]; intros [|v dcol]; cbn -[_clean_text];
      try done. by rewrite IH, <- app_assoc.
  - cbn [mbind result_bind]. do 2 f_equal.
    by rewrite <- list_fmap_compose.
Qed.





End TextConstruction.


(** A row whose description is missing, read by a current pandas and by a
    pandas older than 3.0. *)
Example missing_description_is_empty :
  snd <$> build_text [(cps "title", [PStr (cps "python")]);
                      (cps "headline", [PNaN])]
                     (cps "title") (Some (cps "headline"))
  = Ok [cps "python"].
Proof. vm_compute. reflexivity. Qed.

Example missing_description_before_pandas_3 :
  snd <$> @build_text _ legacy_pandas
            [(cps "title", [PStr (cps "python")]); (cps "headline", [PNaN])]
            (cps "title") (Some (cps "headline"))
  = Ok [cps "python nan"].
Proof. vm_compute. reflexivity. Qed.

(** * The results: rating and url *)

Section ResultFields.
Context `{PyBuiltins, Pandas, Sklearn, NumPy}.

(** The rows behind the results of a query. *)
Lemma recommend_rows self query top_n hits :
  recommend self query top_n = Ok hits →
  ∃ rows, Forall2 (λ i h,
            make_hit self (similarities self (_clean_text query)) i = Ok h)
            rows hits.
Proof.
  unfold recommend. fold (similarities self (_clean_text query)).
  destruct (decide (_clean_text query = [])); [intros [= <-]; by exists []|].
  destruct (decide (length _ = 0)); [intros [= <-]; by exists []|].
  intros (rows & _ & Hhits%mapM_Ok)%bind_Ok. by exists rows.
Qed.

(** The rating of a result is a number or null, and it is null where the
    catalogue has no rating. *)
Lemma hit_rating self sims i h :
  make_hit self sims i = Ok h →
  (rating h = PNone ∨ ∃ x, rating h = PNum x)
  ∧ (∀ v, truthy (rating_col self) = true →
       cell (df self) (default [] (rating_col self)) i = Some v →
       isna v = true → rating h = PNone).
Proof.
  intros (_ & _ & _ & Hr & _)%make_hit_inv.
  destruct (truthy (rating_col self)); [|by split; [left|]].
  destruct Hr as (v & Hv & Hr). destruct (isna v) eqn:Hna.
  - split; [by left|]. intros v' _ Hv' _. done.
  - split; [right; by eapply py_float_Ok|].
    intros v' _ Hv' Hna'. congruence.
Qed.

(** The url of a result is the catalogue value as it stands. *)
Lemma hit_url self sims i h :
  make_hit self sims i = Ok h →
  if truthy (url_col self)
  then cell (df self) (default [] (url_col self)) i = Some (url h)
  else url h = PNone.
Proof. by intros (_ & _ & _ & _ & Hu)%make_hit_inv. Qed.

Lemma recommend_ratings self query top_n hits :
  recommend self query top_n = Ok hits →
  Forall (λ h, rating h = PNone ∨ ∃ x, rating h = PNum x) hits.
Proof.
  intros (rows & Hrows)%recommend_rows.
  induction Hrows as [|i h rows hits Hh _ IH]; constructor; [|done].
  by apply hit_rating in Hh as [Hr _].
Qed.

End ResultFields.

(** C8.  A catalogue row whose rating and url are both missing: the rating
    of the result is null, as the claim says, but its url is the NaN of the
    catalogue, where the claim asks for null. *)
Theorem missing_url_stays_nan :
  cell (df Samples.gaps) (cps "url") 0 = Some PNaN
  ∧ cell (df Samples.gaps) (cps "rating") 0 = Some PNaN
  ∧ (λ hits : list Hit, (λ h, (title h, rating h, url h)) <$> hits)
      <$> recommend Samples.gaps (PStr (cps "python")) 1
    = Ok [(PStr (cps "python"), PNone, PNaN)].
Proof. repeat split; vm_compute; reflexivity. Qed.

(** * The score bound *)

Section Signs.
Import SpecFloat FloatOps FloatAxioms.
Import PrimFloat.PrimFloatNotations.


























End Signs.

Lemma binary64_fit_rows log ngram maxf docs v X :
  Binary64.fit log ngram maxf docs = Ok (v, X) → length X = length docs.
Proof. intros [= <- <-]. by rewrite length_fmap. Qed.

Lemma binary64_kernel_rows X Y : length (Binary64.kernel X Y) = length X.
Proof. unfold Binary64.kernel. by rewrite length_fmap. Qed.

Lemma binary64_kernel_cols X Y :
  Forall (λ r, length r = length Y) (Binary64.kernel X Y).
Proof.
  unfold Binary64.kernel. apply Forall_fmap, Forall_forall. intros x _. cbn.
  by rewrite length_fmap.
Qed.

(** The interface to scikit-learn met by the binary64 index, for any
    logarithm. *)
Definition binary64_sklearn (log : Binary64.float → Binary64.float) : Sklearn := {|
  Vectorizer := (nat * nat) * list pystr * list Binary64.float;
  Matrix := list (list Binary64.float);
  n_rows := length;
  tfidf_fit_transform := Binary64.fit log;
  tfidf_transform := Binary64.transform;
  linear_kernel := Binary64.kernel;
  fit_transform_rows := binary64_fit_rows log;
  transform_rows := λ v docs, length_fmap _ docs;
  linear_kernel_rows := binary64_kernel_rows;
  linear_kernel_cols := binary64_kernel_cols
|}.

Section ScoreBound.
Context `{PyBuiltins, Pandas, NumPy}.
Variable log : Binary64.float → Binary64.float.

#[local] Hint Extern 0 Sklearn => exact (binary64_sklearn log) : typeclass_instances.

End ScoreBound.

(** A catalogue of one course whose title has two words, indexed in
    binary64. *)
Module Rounded.




Definition index : Sklearn := binary64_sklearn Binary64.ln.

Definition hollow : @Recommender index :=
  @Build_Recommender index [] [] ((1, 2), [], []) [] PNone None None
    {| m_title := None; m_url := None; m_rating := None; m_desc := None |}.



End Rounded.



Example logarithm_of_one : Binary64.ln PrimFloat.one = PrimFloat.zero.
Proof. vm_compute. reflexivity. Qed.

(** * The route *)

Section RouteClaims.
Context `{PyBuiltins, Pandas, Sklearn, NumPy}.


End RouteClaims.



(** * The singleton *)

Section SingletonClaims.
Context `{PyBuiltins, Pandas, Sklearn, NumPy}.

Lemma singleton_hit (σ : Process) (r : Recommender) (path : pystr) :
  instances σ !! "Recommender"%string = Some r →
  _SingletonMeta_call path σ = (σ, Ok r).
Proof. intros Hr. unfold _SingletonMeta_call. rewrite Hr. cbn. by rewrite Hr. Qed.

Lemma singleton_miss (σ : Process) (path : pystr) :
  instances σ !! "Recommender"%string = None →
  _SingletonMeta_call path σ =
    match Recommender__init__ path PNone with
    | Ok r => ({| instances := <["Recommender"%string := r]> (instances σ);
                  init_runs := init_runs σ ++ [path] |}, Ok r)
    | Raise e => ({| instances := instances σ;
                     init_runs := init_runs σ ++ [path] |}, Raise e)
    end.
Proof.
  intros Hr. unfold _SingletonMeta_call. rewrite Hr.
  destruct (Recommender__init__ path PNone) as [r|e]; cbn; [|done].
  by rewrite lookup_insert_eq.
Qed.

Lemma run_calls_constructed (σ : Process) (r : Recommender) paths :
  instances σ !! "Recommender"%string = Some r →
  run_calls paths σ = (σ, replicate (length paths) (Ok r)).
Proof.
  intros Hr. induction paths as [|p rest IH]; [done|].
  cbn. unfold create_recommender. rewrite (singleton_hit _ _ _ Hr). cbn.
  by rewrite IH.
Qed.

Lemma run_calls_first_success paths (σ : Process) k r :
  instances σ !! "Recommender"%string = None →
  (run_calls paths σ).2 !! k = Some (Ok r) →
  (∀ j, j < k → ∃ e, (run_calls paths σ).2 !! j = Some (Raise e)) →
  init_runs (run_calls paths σ).1 = init_runs σ ++ take (S k) paths
  ∧ (∃ p, paths !! k = Some p ∧ Recommender__init__ p PNone = Ok r)
  ∧ (∀ j, k ≤ j → j < length paths → (run_calls paths σ).2 !! j = Some (Ok r))
  ∧ instances (run_calls paths σ).1 !! "Recommender"%string = Some r.
Proof.
  revert σ k. induction paths as [|p rest IH]; intros σ k Hnone; [done|].
  cbn [run_calls]. unfold create_recommender.
  rewrite (singleton_miss _ _ Hnone).
  destruct (Recommender__init__ p PNone) as [r0|e] eqn:Hinit; cbn [fst snd].
  - set (σ1 := {| instances := _; init_runs := _ |}).
    assert (Hset : instances σ1 !! "Recommender"%string = Some r0)
      by apply lookup_insert_eq.
    rewrite (run_calls_constructed _ _ rest Hset). cbn [fst snd].
    intros Hk Hbefore. destruct k as [|k].
    + injection Hk as <-. repeat split; try done.
      * by exists p.
      * intros [|j] _ Hj; [done|]. cbn in *.
        apply lookup_replicate_2. lia.
    + destruct (Hbefore 0) as [e He]; [lia|]. done.
  - set (σ1 := {| instances := _; init_runs := _ |}).
    intros Hk Hbefore. destruct k as [|k]; [done|]. cbn in Hk.
    destruct (IH σ1 k Hnone Hk) as (Hruns & Hp & Hlater & Hinst).
    { intros j Hj. apply (Hbefore (S j)). lia. }
    repeat split; try done.
    + rewrite Hruns. cbn. by rewrite <- app_assoc.
    + intros [|j] Hkj Hj; [lia|]. cbn in *. apply Hlater; lia.
Qed.

(** C10, as the metaclass behaves.  In any sequence of calls to
    [Recommender(...)] or [create_recommender(...)] made by a fresh process,
    the constructor body runs for the calls up to and including the first
    one that succeeds and for no later call: that call and every later one
    return the instance it constructed, whatever [csv_path] they are given,
    and further calls leave the state of the process as it is. *)
Theorem singleton_after_first_success (paths : list pystr) (k : nat)
    (r : Recommender) :
  (run_calls paths fresh_process).2 !! k = Some (Ok r) →
  (∀ j, j < k → ∃ e, (run_calls paths fresh_process).2 !! j = Some (Raise e)) →
  init_runs (run_calls paths fresh_process).1 = take (S k) paths
  ∧ (∃ p, paths !! k = Some p ∧ Recommender__init__ p PNone = Ok r)
  ∧ (∀ j, k ≤ j → j < length paths →
       (run_calls paths fresh_process).2 !! j = Some (Ok r))
  ∧ (∀ p, create_recommender p (run_calls paths fresh_process).1
          = ((run_calls paths fresh_process).1, Ok r)).
Proof.
  intros Hk Hbefore.
  destruct (run_calls_first_success paths fresh_process k r)
    as (Hruns & Hp & Hlater & Hinst); try done.
  repeat split; try done.
  intros p. by apply singleton_hit.
Qed.

End SingletonClaims.

(** C10, as claimed, fails: when the first construction raises, the next
    call runs the constructor body again. *)
Lemma constructor_runs_again_after_failure :
  (run_calls [cps "missing.csv"; cps "../data/udemy_courses.csv"] fresh_process).2
    = [Raise FileNotFoundError; Ok Samples.courses]
  ∧ init_runs
      (run_calls [cps "missing.csv"; cps "../data/udemy_courses.csv"] fresh_process).1
    = [cps "missing.csv"; cps "../data/udemy_courses.csv"].
Proof. split; vm_compute; reflexivity. Qed.

Lemma singleton_after_first_success_witness :
  let paths := [cps "missing.csv"; cps "../data/udemy_courses.csv"; cps "gaps.csv"] in
  init_runs (run_calls paths fresh_process).1 = take 2 paths
  ∧ (∃ p, paths !! 1 = Some p ∧ Recommender__init__ p PNone = Ok Samples.courses)
  ∧ (∀ j, 1 ≤ j → j < length paths →
       (run_calls paths fresh_process).2 !! j = Some (Ok Samples.courses))
  ∧ (∀ p, create_recommender p (run_calls paths fresh_process).1
          = ((run_calls paths fresh_process).1, Ok Samples.courses)).
Proof.
  apply (singleton_after_first_success
           [cps "missing.csv"; cps "../data/udemy_courses.csv"; cps "gaps.csv"]
           1 Samples.courses).
  - vm_compute. reflexivity.
  - intros [|j] Hj; [|lia]. eexists. vm_compute. reflexivity.
Defined.

(** * Further properties of the normaliser *)

(** The words of a text, collected from the left: [cur] is the word being
    read. *)
Definition flush (cur : pystr) : list pystr :=
  match cur with
  | [] => []
  | _ => [cur]
  end.

Fixpoint split_words (cur s : pystr) : list pystr :=
  match s with
  | [] => flush cur
  | c :: t =>
      if is_alnum c then split_words (cur ++ [c]) t
      else flush cur ++ split_words [] t
  end.

Lemma alnum_kept c : is_alnum c = true → is_kept c = true.
Proof. unfold is_alnum, is_kept. by intros ->. Qed.

Lemma alnum_not_space c : is_alnum c = true → is_space c = false.
Proof.
  intros Ha. destruct (is_space c) eqn:Hs; [|done].
  pose proof (kept_space c (alnum_kept c Ha) Hs) as ->. done.
Qed.

Lemma space_not_alnum c : is_space c = true → is_alnum c = false.
Proof.
  intros Hs. destruct (is_alnum c) eqn:Ha; [|done].
  by rewrite (alnum_not_space c Ha) in Hs.
Qed.

Lemma kept_not_alnum c : is_kept c = true → is_alnum c = false → c = 32%N.
Proof.
  unfold is_kept, is_alnum. intros Hk Ha. rewrite Ha in Hk. cbn in Hk.
  by apply N.eqb_eq.
Qed.

Lemma flush_snoc cur c : flush (cur ++ [c]) = [cur ++ [c]].
Proof. by destruct cur. Qed.

(** The left-to-right collection yields the maximal runs of [a-z0-9]. *)
Lemma split_words_runs s cur :
  split_words cur s =
    match runs is_alnum s with
    | (true, r) :: rest =>
        (cur ++ r) :: (List.filter (λ br : bool * pystr, br.1) rest).*2
    | rs => flush cur ++ (List.filter (λ br : bool * pystr, br.1) rs).*2
    end.
Proof.
  revert cur. induction s as [|c t IH]; intros cur; [by rewrite app_nil_r|].
  rewrite runs_cons. cbn [split_words]. destruct (is_alnum c) eqn:Hc.
  - rewrite IH. destruct (runs is_alnum t) as [|[[] r] rest]; cbn.
    + by rewrite flush_snoc.
    + by rewrite <- app_assoc.
    + by rewrite flush_snoc.
  - rewrite IH. destruct (runs is_alnum t) as [|[[] r] rest]; cbn; done.
Qed.

Lemma split_words_words s : split_words [] s = words s.
Proof.
  rewrite split_words_runs. unfold words.
  by destruct (runs is_alnum s) as [|[[] r] rest].
Qed.

Lemma split_words_separators cur s :
  Forall (λ c, is_alnum c = false) s → split_words cur s = flush cur.
Proof.
  intros Hs. revert cur. induction Hs as [|c t Hc _ IH]; intros cur; [done|].
  cbn. rewrite Hc, IH. cbn. by rewrite app_nil_r.
Qed.

Lemma split_words_lead l s :
  Forall (λ c, is_alnum c = false) l → split_words [] (l ++ s) = split_words [] s.
Proof. induction 1 as [|c t Hc _ IH]; [done|]. cbn. by rewrite Hc. Qed.

Lemma split_words_trail cur s r :
  Forall (λ c, is_alnum c = false) r → split_words cur (s ++ r) = split_words cur s.
Proof.
  intros Hr. revert cur. induction s as [|c t IH]; intros cur; cbn.
  - by apply split_words_separators.
  - destruct (is_alnum c); by rewrite IH.
Qed.

(** Replacing runs of separators by a space keeps the words. *)
Lemma split_words_re_sub (cls : N → bool) s :
  (∀ c, cls c = true → is_alnum c = false) →
  (∀ cur, split_words cur (re_sub_plus cls [32%N] s) = split_words cur s)
  ∧ split_words [] (re_skip cls [32%N] s) = split_words [] s.
Proof.
  intros Hcls. induction s as [|c t [IHsub IHskip]]; [done|].
  cbn [re_sub_plus re_skip]. destruct (cls c) eqn:Hc.
  - pose proof (Hcls c Hc) as Ha. split.
    + intros cur. cbn. by rewrite Ha, IHskip.
    + cbn. by rewrite Ha, IHskip.
  - split.
    + intros cur. cbn. destruct (is_alnum c); by rewrite IHsub.
    + cbn. destruct (is_alnum c); by rewrite IHsub.
Qed.

Lemma split_words_trimmed s t :
  trimmed_of s t → split_words [] s = split_words [] t.
Proof.
  intros (l & r & -> & Hl & Hr & _).
  assert (Hsep : ∀ x : pystr, Forall (λ c, is_space c = true) x →
                   Forall (λ c, is_alnum c = false) x).
  { intros x Hx. eapply Forall_impl; [exact Hx|]. apply space_not_alnum. }
  rewrite split_words_lead by auto. by rewrite split_words_trail by auto.
Qed.

Lemma join_flush cur : join_words (flush cur) = cur.
Proof. by destruct cur. Qed.

Lemma join_words_cons w ws :
  ws ≠ [] → join_words (w :: ws) = w ++ 32%N :: join_words ws.
Proof. by destruct ws. Qed.

Lemma last_cons_nonempty {A} (x : A) (l : list A) :
  l ≠ [] → last (x :: l) = last l.
Proof. by destruct l. Qed.

(** A normal form is its words joined by single spaces. *)
Lemma join_split_words cur r :
  Forall (λ c, is_kept c = true) r → no_double_space r = true →
  (∀ c, last r = Some c → is_space c = false) →
  (cur = [] → starts_space r = false) →
  join_words (split_words cur r) = cur ++ r.
Proof.
  intros Hk. revert cur. induction Hk as [|c t Hc _ IH]; intros cur Hd Hlast Hcur.
  - cbn. by rewrite join_flush, app_nil_r.
  - cbn [no_double_space] in Hd. apply andb_true_iff in Hd as [Hpair Hd].
    cbn [split_words]. destruct (is_alnum c) eqn:Ha.
    + rewrite IH; [by rewrite <- app_assoc|done| |].
      * intros x Hx. apply Hlast. destruct t; [done|]. by rewrite last_cons_nonempty.
      * intros E. by destruct cur.
    + pose proof (kept_not_alnum c Hc Ha) as ->.
      assert (Hcur' : cur ≠ []).
      { intros E. by specialize (Hcur E). }
      assert (Ht : t ≠ []).
      { intros ->. by specialize (Hlast 32%N eq_refl). }
      assert (Hst : starts_space t = false).
      { cbn in Hpair. by destruct (starts_space t). }
      assert (IHt : join_words (split_words [] t) = t).
      { apply (IH []); [done| |done].
        intros x Hx. apply Hlast. by rewrite last_cons_nonempty. }
      destruct cur as [|a cur]; [done|]. cbn [flush app].
      rewrite join_words_cons; [by rewrite IHt|].
      intros E. rewrite E in IHt. by symmetry in IHt.
Qed.

Lemma split_words_nonempty cur s : Forall (λ w, w ≠ []) (split_words cur s).
Proof.
  revert cur. induction s as [|c t IH]; intros cur; cbn.
  - destruct cur; by repeat constructor.
  - destruct (is_alnum c); [apply IH|]. apply Forall_app. split; [|apply IH].
    destruct cur; by repeat constructor.
Qed.

Lemma split_words_nil cur s :
  split_words cur s = [] ↔ cur = [] ∧ Forall (λ c, is_alnum c = false) s.
Proof.
  revert cur. induction s as [|c t IH]; intros cur; cbn.
  - destruct cur; split; try done. by intros [[=] _].
  - destruct (is_alnum c) eqn:Ha.
    + rewrite IH. split.
      * intros [E _]. by destruct cur.
      * intros [_ Hf]. inversion Hf; congruence.
    + split.
      * intros [Hc Ht]%app_eq_nil. apply IH in Ht as [_ Ht].
        split; [by destruct cur|by constructor].
      * intros [-> Hf]. inversion Hf; subst. cbn. apply IH. by split.
Qed.

Lemma join_words_nil ws : Forall (λ w, w ≠ []) ws → join_words ws = [] → ws = [].
Proof.
  destruct 1 as [|w ws Hw Hws]; [done|]. destruct ws as [|w' ws]; cbn.
  - by intros ->.
  - by destruct w.
Qed.

Section NormaliserWords.
Context `{PyBuiltins}.

Lemma clean_text_join_split v :
  isna v = false →
  _clean_text v = join_words (split_words [] (str_lower (py_str v))).
Proof.
  intros Hna. pose proof (clean_text_normalized v) as Hn.
  rewrite clean_text_unfold in * by done.
  set (s := str_lower (py_str v)) in *.
  set (s1 := re_sub_plus not_kept [32%N] s) in *.
  set (s2 := re_sub_plus is_space [32%N] s1) in *.
  assert (Hw : split_words [] (strip s2) = split_words [] s).
  { rewrite <- (split_words_trimmed s2 (strip s2)) by apply strip_trimmed.
    unfold s2, s1.
    rewrite (proj1 (split_words_re_sub is_space _ space_not_alnum)).
    apply split_words_re_sub. intros c Hc. unfold not_kept in Hc.
    destruct (is_alnum c) eqn:Ha; [|done].
    by rewrite (alnum_kept c Ha) in Hc. }
  rewrite <- Hw. symmetry.
  unfold normalized in Hn.
  apply andb_true_iff in Hn as [[[Hk Hhead]%andb_true_iff Hlast]%andb_true_iff Hd].
  apply negb_true_iff in Hhead, Hlast.
  apply (join_split_words [] (strip s2)); [|done| |done].
  - apply Forall_forall. intros c Hc. apply list_elem_of_In in Hc.
    by apply (proj1 (forallb_forall _ _) Hk).
  - intros c Hc. rewrite <- head_reverse in Hc.
    destruct (reverse (strip s2)); [done|]. by injection Hc as <-.
Qed.

(** X1.  The normalised text is the words of the lower-cased text, that is
    its maximal runs of [a-z0-9], joined by single spaces. *)
Theorem clean_text_words (v : pyval) :
  _clean_text v =
    if isna v then [] else join_words (words (str_lower (py_str v))).
Proof.
  destruct (isna v) eqn:Hna; [unfold _clean_text; by rewrite Hna|].
  by rewrite clean_text_join_split, split_words_words.
Qed.

(** X2.  The normalised text is empty exactly when the argument is missing
    or its lower-cased text has no character in [a-z0-9]: these are the
    queries [recommend] answers with no result. *)
Theorem clean_text_empty_iff (v : pyval) :
  _clean_text v = [] ↔
  isna v = true ∨ Forall (λ c, is_alnum c = false) (str_lower (py_str v)).
Proof.
  destruct (isna v) eqn:Hna.
  - unfold _clean_text. rewrite Hna. split; [by left|done].
  - rewrite clean_text_join_split by done. split.
    + intros Hj%join_words_nil; [|apply split_words_nonempty].
      right. by apply split_words_nil in Hj as [_ Hj].
    + intros [|Hf]; [done|].
      by rewrite (proj2 (split_words_nil [] _) (conj eq_refl Hf)).
Qed.

(** X3.  The normalised text contains only lower-case letters, digits and
    the space character; it neither starts nor ends with a space and has no
    two spaces in a row. *)
Theorem clean_text_shape (v : pyval) :
  Forall (λ c, is_alnum c = true ∨ c = 32%N) (_clean_text v)
  ∧ head (_clean_text v) ≠ Some 32%N
  ∧ last (_clean_text v) ≠ Some 32%N
  ∧ ∀ i, ¬ (_clean_text v !! i = Some 32%N ∧ _clean_text v !! S i = Some 32%N).
Proof.
  pose proof (clean_text_normalized v) as Hn.
  set (r := _clean_text v) in *. clearbody r. unfold normalized in Hn.
  apply andb_true_iff in Hn as [[[Hk Hhead]%andb_true_iff Hlast]%andb_true_iff Hd].
  apply negb_true_iff in Hhead, Hlast. repeat split.
  - apply Forall_forall. intros c Hc. apply list_elem_of_In in Hc.
    pose proof (proj1 (forallb_forall _ _) Hk c Hc) as Hkc.
    destruct (is_alnum c) eqn:Ha; [by left|right]. by apply kept_not_alnum.
  - intros Hh. destruct r as [|c r]; [done|]. injection Hh as ->. done.
  - rewrite <- head_reverse. intros Hh.
    destruct (reverse r) as [|c r']; [done|]. injection Hh as ->. done.
  - intros i [Hi Hsi]. clear Hk Hhead Hlast. revert i Hi Hsi.
    induction r as [|c t IH]; intros i; [done|].
    cbn [no_double_space] in Hd. apply andb_true_iff in Hd as [Hpair Hd].
    destruct i as [|i]; cbn.
    + intros [= ->] Ht. destruct t as [|d t]; [done|]. cbn in Ht.
      injection Ht as ->. done.
    + by apply IH.
Qed.

End NormaliserWords.

Example clean_text_words_example :
  words (cps "intro to c++ 2nd edition") =
    [cps "intro"; cps "to"; cps "c"; cps "2nd"; cps "edition"].
Proof. reflexivity. Qed.

(** * Further properties of column detection *)

Lemma is_prefix_spec p s : is_prefix p s = true ↔ ∃ r, s = p ++ r.
Proof.
  revert s. induction p as [|a p IH]; intros s; cbn.
  - split; [by exists s|done].
  - destruct s as [|b s]; [split; [done|by intros [r [=]]]|].
    rewrite andb_true_iff, N.eqb_eq, IH. split.
    + intros [-> [r ->]]. by exists r.
    + intros [r [= -> ->]]. split; [done|by exists r].
Qed.

Lemma str_contains_spec sub s : str_contains sub s = true ↔ substring sub s.
Proof.
  unfold substring. induction s as [|c t IH]; cbn [str_contains].
  - rewrite orb_false_r, is_prefix_spec. split.
    + intros [r Hr]. by exists [], r.
    + intros (l & r & Hs). symmetry in Hs.
      apply app_eq_nil in Hs as [-> [-> ->]%app_eq_nil]. by exists [].
  - rewrite orb_true_iff, is_prefix_spec, IH. split.
    + intros [[r Hr]|(l & r & ->)]; [by exists [], r|by exists (c :: l), r].
    + intros ([|c' l] & r & Hs); [left; by exists r|right].
      injection Hs as -> ->. by exists l, r.
Qed.

Lemma head_filter_split {A} (p : A → bool) (l : list A) :
  match head (List.filter p l) with
  | Some x => ∃ before after, l = before ++ x :: after ∧ p x = true
                ∧ Forall (λ y, p y = false) before
  | None => Forall (λ y, p y = false) l
  end.
Proof.
  induction l as [|y l IH]; [constructor|]. cbn. destruct (p y) eqn:Hy; cbn.
  - by exists [], l.
  - destruct (head (List.filter p l)) as [x|].
    + destruct IH as (before & after & -> & Hx & Hb).
      exists (y :: before), after. repeat split; [done|by constructor].
    + by constructor.
Qed.

Section Detection.
Context `{PyBuiltins}.

Lemma lowered_names_snoc cols x :
  lowered_names (cols ++ [x]) = <[str_lower x := x]> (lowered_names cols).
Proof. unfold lowered_names. by rewrite foldl_app. Qed.

Lemma lowered_names_lookup cols k :
  lowered_names cols !! k =
    last (List.filter (λ c, bool_decide (str_lower c = k)) cols).
Proof.
  induction cols as [|x cols IH] using rev_ind; [done|].
  rewrite lowered_names_snoc, List.filter_app. cbn [List.filter].
  destruct (decide (str_lower x = k)) as [Hk|Hk].
  - rewrite (bool_decide_eq_true_2 _ Hk), Hk, lookup_insert_eq.
    by rewrite last_snoc.
  - rewrite (bool_decide_eq_false_2 _ Hk), lookup_insert_ne, app_nil_r by done.
    exact IH.
Qed.

Lemma first_candidate_pick cands cols :
  first_candidate cands (lowered_names cols) = pick_column cols cands.
Proof.
  unfold pick_column. induction cands as [|cand cands IH]; [done|].
  cbn. rewrite <- lowered_names_lookup.
  by destruct (lowered_names cols !! cand).
Qed.

(** X4.  Title, url and rating columns are found by name without regard to
    case, by priority of the candidate names: the first candidate that is
    the lower-cased name of some column decides, and among columns with that
    lower-cased name the last one in the file is taken.  No match leaves the
    field undetected. *)
Theorem detect_columns_candidates (d : DataFrame) :
  m_title (_detect_columns d) = pick_column (df_columns d) title_candidates
  ∧ m_url (_detect_columns d) = pick_column (df_columns d) url_candidates
  ∧ m_rating (_detect_columns d) = pick_column (df_columns d) rating_candidates.
Proof. repeat split; apply first_candidate_pick. Qed.

Lemma names_description_test c :
  (str_contains (cps "desc") (str_lower c)
   || str_contains (cps "headline") (str_lower c)
   || str_contains (cps "subtitle") (str_lower c)) = true
  ↔ names_description c.
Proof.
  unfold names_description, description_words.
  rewrite !orb_true_iff, !str_contains_spec, !Exists_cons, Exists_nil. tauto.
Qed.

(** X5.  The description column is the first column, in file order, whose
    lower-cased name contains desc, headline or subtitle; when no column
    name does, no description column is detected. *)
Theorem detect_columns_description (d : DataFrame) :
  match m_desc (_detect_columns d) with
  | Some c =>
      ∃ before after, df_columns d = before ++ c :: after
        ∧ names_description c
        ∧ Forall (λ c', ¬ names_description c') before
  | None => Forall (λ c', ¬ names_description c') (df_columns d)
  end.
Proof.
  unfold _detect_columns. cbn [m_desc].
  match goal with |- context [List.filter ?p _] => set (test := p) end.
  assert (Htest : ∀ c, test c = true ↔ names_description c)
    by (intros c; apply names_description_test).
  assert (Hnot : ∀ l, Forall (λ y, test y = false) l →
                      Forall (λ c', ¬ names_description c') l).
  { intros l Hl. eapply Forall_impl; [exact Hl|]. intros c Hc Hn.
    apply Htest in Hn. congruence. }
  pose proof (head_filter_split test (df_columns d)) as Hh.
  destruct (head (List.filter test (df_columns d))) as [c|]; [|by apply Hnot].
  destruct Hh as (before & after & Hcols & Hc & Hb).
  exists before, after. split; [done|]. split; [by apply Htest|by apply Hnot].
Qed.

End Detection.

Example detect_columns_case_and_priority :
  let d : DataFrame :=
    [(cps "Name", []); (cps "Course_Title", []); (cps "LINK", []);
     (cps "Sub-Title", []); (cps "Headline", []); (cps "course_title", [])] in
  _detect_columns d =
    {| m_title := Some (cps "course_title"); m_url := Some (cps "LINK");
       m_rating := None; m_desc := Some (cps "Headline") |}.
Proof. vm_compute. reflexivity. Qed.

(** * Further properties of the loader *)

Lemma df_set_other (d : DataFrame) name col k :
  k ≠ name → assoc k (df_set d name col) = assoc k d.
Proof.
  intros Hk. induction d as [|[k' c] d IH]; cbn.
  - by destruct (decide (k = name)).
  - destruct (decide (name = k')) as [->|]; cbn.
    + by destruct (decide (k = k')).
    + destruct (decide (k = k')); [done|exact IH].
Qed.

Lemma assoc_Some_elem {A} k (l : list (pystr * A)) v :
  assoc k l = Some v → k ∈ l.*1.
Proof.
  induction l as [|[k' w] l IH]; [done|]. cbn.
  destruct (decide (k = k')) as [->|]; [intros _; left|right; auto].
Qed.

Section LoaderFacts.
Context `{PyBuiltins, Pandas, Sklearn, NumPy}.

(** X6.  A loaded recommender keeps the frame of the CSV file as it was
    read: same number of rows, every column unchanged, with one column
    [__title__] added (or replaced) that holds the title column as
    [astype(str)] leaves it, the title column being the detected one or,
    when none is detected, the first column of the file.  In [__title__]
    every title that is present is its text, an integer its digits; a
    missing title stays missing where pandas keeps missing values (3.0 and
    later) and is its [str()] where it does not.  The recommender records
    the path it was given and the detected url and rating columns. *)
Theorem load_data_frame path fields self :
  _load_data path fields = Ok self →
  ∃ d, read_csv path = Ok d
    ∧ csv_path self = path
    ∧ mapping self = _detect_columns d
    ∧ url_col self = m_url (mapping self)
    ∧ rating_col self = m_rating (mapping self)
    ∧ corpus_size self = df_len d
    ∧ (∀ name, name ≠ cps "__title__" → assoc name (df self) = assoc name d)
    ∧ ∃ title_col tcol,
        title_source d title_col ∧ df_col d title_col = Ok tcol
        ∧ df_col (df self) (cps "__title__") = Ok (astype_str tcol)
        ∧ ∀ i v, tcol !! i = Some v →
            cell (df self) (cps "__title__") i
            = Some (if isna v && astype_str_keeps_missing then PNaN
                    else PStr (py_str v)).
Proof.
  intros (d & title_col & tcol & combined & fitted & Hd & Hsrc & Htcol & Hb & _ & ->)
    %load_data_inv.
  exists d. cbn [csv_path mapping url_col rating_col df]. unfold corpus_size.
  cbn [df]. repeat split; try done.
  - pose proof (read_csv_rectangular _ _ Hd) as Hrect.
    by destruct (build_text_shape _ _ _ _ _ Hrect Hb) as (? & _ & _ & _ & Hl & _).
  - intros name Hname. by apply df_set_other.
  - exists title_col, tcol. split; [done|]. split; [done|].
    split; [apply df_col_set_same|]. intros i v Hv. unfold cell.
    rewrite df_set_same. cbn. unfold astype_str.
    by rewrite list_lookup_fmap, Hv.
Qed.

(** X7.  Every title a query returns from a loaded recommender is a
    string, or the missing value NaN; never a number and never [None].  NaN
    is returned only by a pandas whose [astype(str)] keeps missing values
    (3.0 and later), for a row whose title is missing; with an older pandas
    every title is a string. *)
Theorem loaded_titles_are_strings path fields self query top_n hits :
  _load_data path fields = Ok self →
  recommend self query top_n = Ok hits →
  Forall (λ h, (∃ s, title h = PStr s)
               ∨ (title h = PNaN ∧ astype_str_keeps_missing = true)) hits.
Proof.
  intros Hload (rows & Hrows)%recommend_rows.
  pose proof (load_data_well_formed _ _ _ Hload) as Hwf.
  apply load_data_inv in Hload
    as (d & title_col & tcol & combined & fitted & _ & _ & _ & _ & _ & Hself).
  assert (Ht : df_col (df self) (cps "__title__") = Ok (astype_str tcol))
    by (rewrite Hself; apply df_col_set_same).
  clear Hself.
  pose proof (rectangular_col _ _ _ (wf_rectangular _ Hwf) Ht) as Hlen.
  induction Hrows as [|i h rows hits Hh _ IH]; constructor; [|done].
  apply make_hit_inv in Hh as (Hi & _ & -> & _). unfold cell.
  unfold df_col in Ht. destruct (assoc _ (df self)) as [c|]; [|done].
  injection Ht as ->. cbn. unfold corpus_size in Hi. rewrite <- Hlen in Hi.
  apply lookup_lt_is_Some in Hi as [x Hx]. rewrite Hx. cbn.
  unfold astype_str in Hx. rewrite list_lookup_fmap in Hx.
  destruct (tcol !! i) as [v|]; [|done]. injection Hx as <-.
  destruct (isna v && astype_str_keeps_missing) eqn:E; [right|left; by eexists].
  by apply andb_true_iff in E as [_ ->].
Qed.

Lemma detected_in_columns (d : DataFrame) cands c :
  first_candidate cands (lowered_names (df_columns d)) = Some c →
  is_Some (assoc c d).
Proof. intros Hc. by eapply assoc_is_Some, first_candidate_from_columns. Qed.

Lemma description_in_columns (d : DataFrame) c :
  m_desc (_detect_columns d) = Some c → is_Some (assoc c d).
Proof.
  intros Hc. apply assoc_is_Some. unfold _detect_columns in Hc. cbn [m_desc] in Hc.
  match type of Hc with context [List.filter ?p _] =>
    pose proof (head_filter_split p (df_columns d)) as Hd end.
  rewrite Hc in Hd. destruct Hd as (before & after & Hcols & _).
  unfold df_columns in Hcols. rewrite Hcols. apply elem_of_app. right. by left.
Qed.

(** The text construction does not raise on the columns detection gives. *)
Lemma build_text_total (d : DataFrame) title_col tcol :
  rectangular d → df_col d title_col = Ok tcol →
  ∃ combined,
    build_text d title_col (m_desc (_detect_columns d))
    = Ok (df_set d (cps "__title__") (astype_str tcol), combined)
    ∧ length combined = df_len d.
Proof.
  intros Hrect Htcol. rewrite (build_text_eval _ _ _ _ Htcol). cbn zeta.
  pose proof (rectangular_col _ _ _ Hrect Htcol) as Hlen.
  destruct (truthy (m_desc (_detect_columns d))) eqn:Ht.
  - destruct (m_desc (_detect_columns d)) as [c|] eqn:Hc; [|done].
    destruct (df_set_assoc d (cps "__title__") (astype_str tcol) c
                (description_in_columns d c Hc)) as [dcol Hdcol].
    change (default [] (Some c)) with c.
    unfold df_col at 1. rewrite Hdcol. cbn [mbind result_bind].
    eexists. split; [done|]. rewrite length_zip_with.
    assert (Hne : d ≠ []) by (by intros ->).
    assert (Hl : length (astype_str tcol) = df_len d)
      by (by rewrite length_astype_str).
    destruct (df_set_rectangular d (cps "__title__") _ Hne Hrect Hl) as [Hr' Hl'].
    assert (Hdl : length dcol = df_len d).
    { rewrite <- Hl'. apply (rectangular_col _ c _ Hr').
      unfold df_col. by rewrite Hdcol. }
    lia.
  - eexists. split; [done|]. by rewrite length_fmap.
Qed.

(** X8.  Loading fails in three ways only: reading the CSV file fails (the
    exception of [read_csv], [FileNotFoundError] for a missing file, is
    passed on), the file has no column at all ([IndexError]), or fitting the
    vectorizer on the cleaned texts fails.  In particular the text
    construction itself never raises, and the vectorizer is given exactly
    one text per row. *)
Theorem load_data_outcome path fields :
  match read_csv path with
  | Raise e => _load_data path fields = Raise e
  | Ok [] => _load_data path fields = Raise IndexError
  | Ok d =>
      ∃ combined, length combined = df_len d
        ∧ match tfidf_fit_transform (1, 2) 20000%N combined with
          | Raise e => _load_data path fields = Raise e
          | Ok _ => ∃ self, _load_data path fields = Ok self
          end
  end.
Proof.
  unfold _load_data. destruct (read_csv path) as [d|e] eqn:Hd; [|done].
  cbn [mbind result_bind]. destruct d as [|kc d']; [done|].
  set (d := kc :: d') in *.
  pose proof (read_csv_rectangular _ _ Hd) as Hrect.
  assert (∃ title_col tcol,
            (if truthy (m_title (_detect_columns d))
             then Ok (default [] (m_title (_detect_columns d)))
             else match head (df_columns d) with
                  | Some c => Ok c
                  | None => Raise IndexError
                  end) = Ok title_col
            ∧ df_col d title_col = Ok tcol) as (title_col & tcol & -> & Htcol).
  { destruct (truthy (m_title (_detect_columns d))) eqn:Ht.
    - destruct (m_title (_detect_columns d)) as [c|] eqn:Hc; [|done].
      destruct (detected_in_columns d title_candidates c Hc) as [tcol Htcol].
      exists c, tcol. split; [done|]. unfold df_col. by rewrite Htcol.
    - destruct kc as [k c]. exists k, c. split; [done|].
      unfold df_col, d. cbn. by destruct (decide (k = k)). }
  cbn [mbind result_bind].
  destruct (build_text_total d title_col tcol Hrect Htcol) as (combined & -> & Hlen).
  cbn [mbind result_bind snd]. exists combined. split; [done|].
  destruct (tfidf_fit_transform _ _ combined); cbn; [by eexists|done].
Qed.

End LoaderFacts.

(** * Further properties of the query *)

Lemma gather_lookup {A} (a : list A) p i :
  Forall (λ j, j < length a) p → gather a p !! i = p !! i ≫= (a !!.).
Proof.
  unfold gather. intros Hp. revert i. induction Hp as [|j p Hj _ IH]; intros i.
  - done.
  - apply lookup_lt_is_Some in Hj as [x Hx]. cbn. rewrite Hx.
    destruct i as [|i]; cbn; [done|apply IH].
Qed.

Lemma mapM_Raise {A B} (f : A → result B) l e :
  mapM f l = Raise e → ∃ x, x ∈ l ∧ f x = Raise e.
Proof.
  induction l as [|x l IH]; [done|]. rewrite mapM_cons.
  destruct (f x) as [y|e'] eqn:Hx; cbn.
  - destruct (mapM f l) as [k|e'']; cbn; [done|].
    intros [= <-]. destruct (IH eq_refl) as (x' & Hin & Hx').
    exists x'. split; [by right|done].
  - intros [= <-]. exists x. split; [by left|done].
Qed.

Section QueryFacts.
Context `{PyBuiltins, Pandas, Sklearn, NumPy}.

(** What the two selection lines hand on: a rearrangement of the first
    [top_n] places of a partition of all row indices. *)
Lemma top_indices_parts sims top_n rows :
  top_indices sims top_n = Ok rows →
  ∃ part,
    part ≡ₚ seq 0 (length sims)
    ∧ Forall (partitioned_at (Qopp <$> sims) part)
        (seq 0 (Z.to_nat (Z.min (Z.max 1 top_n) (Z.of_nat (length sims)))))
    ∧ rows ≡ₚ take (Z.to_nat (Z.max 1 top_n)) part.
Proof.
  intros (part & sel & Hpart & Hsel & Hfinal)%top_indices_inv.
  destruct (argpartition_ok (Qopp <$> sims)
              (seq 0 (Z.to_nat (Z.min (Z.max 1 top_n) (Z.of_nat (length sims))))))
    as (part' & Hpart' & Hperm & Hkth).
  { apply Forall_forall. intros j [_ Hj]%elem_of_seq. rewrite length_fmap. lia. }
  rewrite Hpart in Hpart'. injection Hpart' as <-.
  rewrite length_fmap in Hperm. exists part. split; [done|]. split; [done|].
  rewrite <- (gather_Forall2 _ _ _ Hfinal). apply gather_permutation.
  rewrite (Forall2_length _ _ _ Hsel), <- (length_fmap Qopp sel).
  apply argsort_perm.
Qed.

Lemma top_indices_distinct sims top_n rows :
  top_indices sims top_n = Ok rows →
  NoDup rows ∧ Forall (λ i, i < length sims) rows.
Proof.
  intros (part & Hperm & _ & Hrows)%top_indices_parts.
  assert (Hnd : NoDup part) by (rewrite Hperm; apply NoDup_seq).
  split.
  - rewrite Hrows. eapply sublist_NoDup; [exact Hnd|apply sublist_take].
  - apply Forall_forall. intros i Hi. rewrite Hrows in Hi.
    apply subseteq_take in Hi. rewrite Hperm in Hi.
    apply elem_of_seq in Hi. lia.
Qed.

Lemma top_indices_best sims top_n rows i j x y :
  top_indices sims top_n = Ok rows →
  i ∈ rows → j ∉ rows → sims !! i = Some x → sims !! j = Some y →
  (y <= x)%Q.
Proof.
  intros (part & Hperm & Hkth & Hrows)%top_indices_parts Hi Hj Hx Hy.
  set (k' := Z.to_nat (Z.max 1 top_n)) in *.
  rewrite Hrows in Hi, Hj.
  apply elem_of_take in Hi as (pi & Hpi & Hlt).
  assert (Hjn : j < length sims) by (by eapply lookup_lt_Some).
  assert (Hjp : j ∈ part).
  { rewrite Hperm. apply elem_of_seq. lia. }
  apply list_elem_of_lookup_1 in Hjp as [pj Hpj].
  assert (Hge : k' ≤ pj).
  { destruct (decide (k' ≤ pj)); [done|]. exfalso. apply Hj.
    apply elem_of_take. exists pj. split; [done|lia]. }
  assert (Hpjn : pj < length sims).
  { apply lookup_lt_Some in Hpj.
    by rewrite (Permutation_length Hperm), length_seq in Hpj. }
  assert (Hbound : Forall (λ j, j < length (Qopp <$> sims)) part).
  { apply Forall_forall. intros z Hz. rewrite Hperm in Hz.
    apply elem_of_seq in Hz. rewrite length_fmap. lia. }
  assert (Hin : k' - 1 ∈ seq 0 (Z.to_nat (Z.min (Z.max 1 top_n)
                                              (Z.of_nat (length sims))))).
  { apply elem_of_seq. unfold k' in *. lia. }
  pose proof (proj1 (Forall_forall _ _) Hkth _ Hin pi pj (- x) (- y)) as Hle.
  rewrite !gather_lookup, Hpi, Hpj in Hle by done. cbn in Hle.
  rewrite !list_lookup_fmap, Hx, Hy in Hle. cbn in Hle.
  assert (Hxy : (- x <= - y)%Q) by (apply Hle; [unfold k' in *; lia..|done|done]).
  apply Qopp_le_compat in Hxy. by rewrite !Qopp_involutive in Hxy.
Qed.

(** The rows behind the results, with the selection that produced them. *)
Lemma recommend_selected self query top_n hits :
  recommend self query top_n = Ok hits →
  ∃ rows,
    Forall2 (λ i h, make_hit self (similarities self (_clean_text query)) i = Ok h)
            rows hits
    ∧ (rows = [] ∨ top_indices (similarities self (_clean_text query)) top_n = Ok rows).
Proof.
  unfold recommend. fold (similarities self (_clean_text query)).
  destruct (decide (_clean_text query = []));
    [intros [= <-]; exists []; by split; [|left]|].
  destruct (decide (length _ = 0));
    [intros [= <-]; exists []; by split; [|left]|].
  intros (rows & Hrows & Hhits%mapM_Ok)%bind_Ok. exists rows. split; [done|by right].
Qed.

(** X9.  The results of a query are built from distinct catalogue rows, each
    result carrying the similarity score of its row, and no row that was
    left out scores higher than a row that was returned. *)
Theorem recommend_top_rows self query top_n hits :
  recommend self query top_n = Ok hits →
  ∃ rows,
    Forall2 (λ i h, similarities self (_clean_text query) !! i = Some (score h))
            rows hits
    ∧ NoDup rows
    ∧ ∀ j y, similarities self (_clean_text query) !! j = Some y → j ∉ rows →
        Forall (λ h, (y <= score h)%Q) hits.
Proof.
  intros (rows & Hhits & Hsel)%recommend_selected.
  assert (Hscore : Forall2 (λ i h, similarities self (_clean_text query) !! i
                                   = Some (score h)) rows hits).
  { eapply Forall2_impl; [exact Hhits|]. intros i h Hh.
    by apply make_hit_inv in Hh as (_ & Hs & _). }
  exists rows. split; [done|]. destruct Hsel as [->|Hsel].
  - inversion Hscore; subst. split; [constructor|]. by intros.
  - split; [by apply top_indices_distinct in Hsel as [Hnd _]|].
    intros j y Hy Hj. apply Forall_forall. intros h Hh.
    apply list_elem_of_lookup_1 in Hh as [p Hp].
    destruct (Forall2_lookup_r _ _ _ _ _ Hscore Hp) as (i & Hi & Hs).
    eapply (top_indices_best _ _ _ i j); eauto.
    by eapply list_elem_of_lookup_2.
Qed.

(** X10.  Every result is read off a single catalogue row: its score is the
    similarity of that row, its title the row's [__title__], its rating the
    [float] of the row's rating, or null when the rating is missing or no
    rating column was detected, and its url the row's url as it stands, or
    null when no url column was detected. *)
Theorem recommend_alignment self query top_n hits :
  recommend self query top_n = Ok hits →
  ∃ rows,
    Forall2 (hit_of_row self (similarities self (_clean_text query))) rows hits.
Proof.
  intros (rows & Hhits & _)%recommend_selected. exists rows.
  eapply Forall2_impl; [exact Hhits|]. intros i h Hh.
  by apply make_hit_inv in Hh.
Qed.

Lemma make_hit_Raise self sims idx e :
  well_formed self → idx < corpus_size self → idx < length sims →
  make_hit self sims idx = Raise e →
  e = ValueError
  ∧ truthy (rating_col self) = true
  ∧ ∃ s, cell (df self) (default [] (rating_col self)) idx = Some (PStr s)
         ∧ float_of_str s = None.
Proof.
  intros [Hrect _ Hrating Hurl] Hidx Hsims. unfold make_hit, df_iloc.
  fold (corpus_size self). destruct (decide (idx < corpus_size self)); [|done].
  cbn [mbind result_bind]. apply lookup_lt_is_Some in Hsims as [x Hx].
  unfold list_item. rewrite Hx. cbn [mbind result_bind].
  set (row := (λ kc : pystr * Series, (kc.1, default PNaN (kc.2 !! idx))) <$> df self).
  assert (Hcell : ∀ name, row_item row name =
            match cell (df self) name idx with
            | Some v => Ok v
            | None => Raise KeyError
            end).
  { intros name. unfold row_item, row, cell.
    rewrite (assoc_fmap (λ col : Series, default PNaN (col !! idx))).
    by destruct (assoc name (df self)). }
  assert (Hu : ∃ u, (if truthy (url_col self)
                     then row_item row (default [] (url_col self))
                     else Ok PNone) = Ok u).
  { destruct (truthy (url_col self)) eqn:Ht; [|by eexists].
    rewrite Hcell. unfold cell. destruct (Hurl Ht) as [col ->]. by eexists. }
  destruct Hu as [u Hu]. rewrite Hu.
  destruct (truthy (rating_col self)) eqn:Ht; [|done].
  rewrite Hcell. unfold cell at 1. destruct (Hrating Ht) as [col Hcol].
  rewrite Hcol. cbn [fmap option_fmap option_map mbind result_bind].
  set (v := default PNaN (col !! idx)).
  assert (Hv : cell (df self) (default [] (rating_col self)) idx = Some v).
  { unfold cell. by rewrite Hcol. }
  destruct v as [| |q|n|s] eqn:Ev; cbn; try done.
  destruct (float_of_str s) eqn:Hf; cbn; [done|].
  intros [= <-]. split; [done|]. split; [done|]. by exists s.
Qed.

Lemma recommend_Raise_inv self query top_n e :
  well_formed self → recommend self query top_n = Raise e →
  e = ValueError
  ∧ ∃ i s, i < corpus_size self
      ∧ cell (df self) (default [] (rating_col self)) i = Some (PStr s)
      ∧ float_of_str s = None.
Proof.
  intros Hwf. unfold recommend. fold (similarities self (_clean_text query)).
  destruct (decide (_clean_text query = [])); [done|].
  destruct (decide (length _ = 0)); [done|].
  destruct (top_indices_total (similarities self (_clean_text query)) top_n)
    as (rows & -> & _ & Hbound & _). cbn [mbind result_bind].
  intros (i & Hi & Hraise)%mapM_Raise.
  pose proof (proj1 (Forall_forall _ _) Hbound i Hi) as Hlt.
  assert (Hc : i < corpus_size self).
  { unfold corpus_size. rewrite <- (wf_aligned _ Hwf), <- (similarities_length self
      (_clean_text query)). exact Hlt. }
  destruct (make_hit_Raise _ _ _ _ Hwf Hc Hlt Hraise) as (-> & _ & s & Hs & Hf).
  split; [done|]. by exists i, s.
Qed.

(** X11.  On a loaded recommender a query can raise one exception only: the
    [ValueError] of [float] on a rating that is text and not a number.  It
    never raises for a top_n that is too large or too small, for an index out
    of range or for a missing column. *)
Theorem recommend_raises_only_value_error self query top_n e :
  well_formed self → recommend self query top_n = Raise e →
  e = ValueError
  ∧ ∃ i s, i < corpus_size self
      ∧ cell (df self) (default [] (rating_col self)) i = Some (PStr s)
      ∧ float_of_str s = None.
Proof. apply recommend_Raise_inv. Qed.

End QueryFacts.

(** * Further properties of the route and of start-up *)

Section RouteFacts.
Context `{PyBuiltins, Pandas, Sklearn, NumPy}.

Lemma recommend_Ok_length self query top_n hits :
  well_formed self → recommend self query top_n = Ok hits →
  length hits =
    if decide (_clean_text query = []) then 0
    else Nat.min (Z.to_nat (Z.max 1 top_n)) (corpus_size self).
Proof.
  intros Hwf Hrec.
  pose proof (similarities_length self (_clean_text query)) as Hlen.
  rewrite (wf_aligned _ Hwf) in Hlen. fold (corpus_size self) in Hlen.
  unfold recommend in Hrec. fold (similarities self (_clean_text query)) in Hrec.
  destruct (decide (_clean_text query = [])); [by injection Hrec as <-|].
  destruct (decide (length _ = 0)) as [Hz|Hz].
  - injection Hrec as <-. rewrite <- Hlen, Hz. cbn. lia.
  - destruct (top_indices_total (similarities self (_clean_text query)) top_n)
      as (rows & Hrows & Hcard & _).
    rewrite Hrows in Hrec. cbn [mbind result_bind] in Hrec.
    apply mapM_Ok in Hrec. by rewrite <- (Forall2_length _ _ _ Hrec), Hcard, Hlen.
Qed.

Lemma recommend_total self query top_n :
  well_formed self → ratings_numeric self →
  ∃ hits,
    recommend self query top_n = Ok hits
    ∧ length hits =
        if decide (_clean_text query = []) then 0
        else Nat.min (Z.to_nat (Z.max 1 top_n)) (corpus_size self).
Proof.
  intros Hwf Hnum.
  destruct (recommend self query top_n) as [hits|e] eqn:Hrec.
  - exists hits. split; [done|]. by apply recommend_Ok_length.
  - exfalso. unfold recommend in Hrec.
    fold (similarities self (_clean_text query)) in Hrec.
    destruct (decide (_clean_text query = [])); [done|].
    destruct (decide (length _ = 0)); [done|].
    destruct (top_indices_total (similarities self (_clean_text query)) top_n)
      as (rows & Hrows & _ & Hbound & _).
    rewrite Hrows in Hrec. cbn [mbind result_bind] in Hrec.
    apply mapM_Raise in Hrec as (i & Hi & Hraise).
    pose proof (proj1 (Forall_forall _ _) Hbound i Hi) as Hlt.
    assert (Hc : i < corpus_size self).
    { unfold corpus_size. rewrite <- (wf_aligned _ Hwf),
        <- (similarities_length self (_clean_text query)). exact Hlt. }
    destruct (make_hit_Raise _ _ _ _ Hwf Hc Hlt Hraise) as (_ & Ht & s & Hs & Hf).
    unfold cell in Hs.
    destruct (assoc (default [] (rating_col self)) (df self)) as [col|] eqn:Hcol;
      [|done].
    assert (Hdf : df_col (df self) (default [] (rating_col self)) = Ok col).
    { unfold df_col. by rewrite Hcol. }
    cbn in Hs. destruct (col !! i) as [v|] eqn:Hv; [|done].
    cbn in Hs. injection Hs as ->.
    destruct (proj1 (Forall_lookup _ _) (Hnum col Ht Hdf) i _ Hv eq_refl) as [x Hx].
    cbn in Hx. by rewrite Hf in Hx.
Qed.




End RouteFacts.

(** * The query: cardinality *)

Section CardinalityClaim.
Context `{PyBuiltins, Pandas, Sklearn, NumPy}.

(** C4, as the query behaves.  On a loaded recommender and for any integer
    [top_n], the selection step clamps [top_n] to at least 1 and yields,
    without raising, exactly min(max(1, top_n), corpus size) row indices,
    all of them when that bound reaches the corpus size.  For a query whose
    normalised text is not empty, [recommend] then returns exactly that many
    results, which are all the catalogue records, each once, when the bound
    reaches the corpus size, unless it raises the [ValueError] of [float] on
    a rating of the catalogue that is text and not a number.  It raises
    nothing when [float] accepts every rating of the catalogue. *)
Theorem recommend_cardinality (self : Recommender) (query : pyval) (top_n : Z) :
  well_formed self → _clean_text query ≠ [] →
  (∃ rows,
     top_indices (similarities self (_clean_text query)) top_n = Ok rows
     ∧ length rows = Nat.min (Z.to_nat (Z.max 1 top_n)) (corpus_size self)
     ∧ (corpus_size self ≤ Z.to_nat (Z.max 1 top_n) →
        rows ≡ₚ seq 0 (corpus_size self)))
  ∧ match recommend self query top_n with
    | Ok hits =>
        length hits = Nat.min (Z.to_nat (Z.max 1 top_n)) (corpus_size self)
        ∧ (corpus_size self ≤ Z.to_nat (Z.max 1 top_n) →
           ∀ titles, df_col (df self) (cps "__title__") = Ok titles →
             title <$> hits ≡ₚ titles)
    | Raise e =>
        e = ValueError
        ∧ ∃ i s, i < corpus_size self
            ∧ cell (df self) (default [] (rating_col self)) i = Some (PStr s)
            ∧ float_of_str s = None
    end
  ∧ (ratings_numeric self → ∃ hits, recommend self query top_n = Ok hits).
Proof.
  intros Hwf Hq.
  pose proof (similarities_length self (_clean_text query)) as Hlen.
  rewrite (wf_aligned _ Hwf) in Hlen. fold (corpus_size self) in Hlen.
  split.
  { destruct (top_indices_total (similarities self (_clean_text query)) top_n)
      as (rows & Hrows & Hcard & _ & Hall).
    rewrite Hlen in Hcard, Hall. by exists rows. }
  split.
  - destruct (recommend self query top_n) as [hits|e] eqn:Hrec;
      [|by apply recommend_Raise_inv in Hrec].
    split.
    { pose proof (recommend_Ok_length _ _ _ _ Hwf Hrec) as Hl.
      by destruct (decide (_clean_text query = [])). }
    intros Hk titles Ht.
    pose proof (rectangular_col _ _ _ (wf_rectangular _ Hwf) Ht) as Htl.
    fold (corpus_size self) in Htl.
    destruct (decide (similarities self (_clean_text query) = [])) as [Hnil|Hne].
    + unfold recommend in Hrec. fold (similarities self (_clean_text query)) in Hrec.
      destruct (decide (_clean_text query = [])); [done|].
      rewrite Hnil in Hrec, Hlen. cbn in Hrec, Hlen. injection Hrec as <-.
      rewrite <- Hlen in Htl. by destruct titles.
    + rewrite recommend_unfold in Hrec by done.
      destruct (top_indices_total (similarities self (_clean_text query)) top_n)
        as (final & Hfinal & _ & _ & Hall).
      rewrite Hfinal in Hrec. cbn [mbind result_bind] in Hrec.
      apply mapM_Ok in Hrec. rewrite Hlen in Hall.
      assert (Hg : gather titles final = title <$> hits).
      { apply gather_Forall2, Forall2_fmap_r.
        eapply Forall2_impl; [exact Hrec|]. intros i h Hh. cbn in Hh.
        apply make_hit_inv in Hh as (Hi & _ & Htitle & _).
        unfold compose. rewrite Htitle. unfold cell.
        unfold df_col in Ht. destruct (assoc _ (df self)) as [c|]; [|done].
        injection Ht as ->. cbn. rewrite <- Htl in Hi.
        apply lookup_lt_is_Some in Hi as [x Hx]. by rewrite Hx. }
      rewrite <- Hg. apply gather_permutation. rewrite Htl. by apply Hall.
  - intros Hnum.
    destruct (recommend_total self query top_n Hwf Hnum) as (hits & -> & _).
    by eexists.
Qed.

End CardinalityClaim.

Section LoaderTexts.
Context `{PyBuiltins, Pandas, Sklearn, NumPy}.

(** X15.  For either pandas, the index of a loaded recommender is the
    vectorizer fitted on one cleaned text per catalogue row, in row order:
    the normalised text of the title and, when a description column was
    detected, of the title, one space, and the description.  A value that is
    present enters as [str] makes it, so a number enters as its digits.  A
    missing value enters as the empty text where [astype(str)] keeps missing
    values (pandas 3.0 and later), and as its [str()], the word nan, where
    it does not. *)
Theorem load_data_texts path fields self :
  _load_data path fields = Ok self →
  ∃ d title_col tcol combined fitted,
    read_csv path = Ok d ∧ title_source d title_col ∧ df_col d title_col = Ok tcol
    ∧ tfidf_fit_transform (1, 2) 20000%N combined = Ok fitted
    ∧ vectorizer self = fitted.1 ∧ tfidf_matrix self = fitted.2
    ∧ if truthy (m_desc (mapping self))
      then ∃ dcol,
             df_col (df self) (default [] (m_desc (mapping self))) = Ok dcol
             ∧ combined =
                 zip_with
                   (λ t v, _clean_text (PStr (filled_text t ++ cps " " ++ filled_text v)))
                   tcol dcol
      else combined = (λ t, _clean_text (PStr (filled_text t))) <$> tcol.
Proof.
  intros (d & title_col & tcol & combined & fitted & Hd & Hsrc & Htcol & Hb & Hfit & ->)
    %load_data_inv.
  exists d, title_col, tcol, combined, fitted.
  cbn [vectorizer tfidf_matrix mapping df]. repeat (split; [done|]).
  rewrite (build_text_eval _ _ _ _ Htcol) in Hb. cbn zeta in Hb.
  destruct (truthy (m_desc (_detect_columns d))).
  - apply bind_Ok in Hb as (dcol & Hdcol & [= <-]). by exists dcol.
  - by injection Hb as <-.
Qed.

End LoaderTexts.

(** * Examples for the further properties *)

Module Reviewed.

(** A catalogue whose detected rating column holds review text. *)
Definition reviews_csv : DataFrame :=
  [ (cps "title", [PStr (cps "python basics"); PStr (cps "cooking")]);
    (cps "reviews", [PStr (cps "great course"); PStr (cps "4")]) ].

Lemma reviews_rectangular (path : pystr) (d : DataFrame) :
  Ok reviews_csv = Ok d → rectangular d.
Proof.
  intros [= <-] col Hcol. cbn in Hcol.
  repeat (apply elem_of_cons in Hcol as [->|Hcol]; [done|]).
  by apply elem_of_nil in Hcol.
Qed.

Definition reviews_pandas : Pandas := {|
  read_csv := λ _, Ok reviews_csv;
  astype_str_keeps_missing := true;
  read_csv_rectangular := reviews_rectangular
|}.

Definition reviewed : Recommender :=
  Eval vm_compute in
    match @_load_data _ reviews_pandas _ (cps "reviews.csv") PNone with
    | Ok r => r
    | Raise _ => Samples.hollow
    end.

Lemma reviewed_loaded :
  @_load_data _ reviews_pandas _ (cps "reviews.csv") PNone = Ok reviewed.
Proof. vm_compute. reflexivity. Qed.

Lemma reviewed_well_formed : well_formed reviewed.
Proof. exact (@load_data_well_formed _ reviews_pandas _ _ _ _ reviewed_loaded). Qed.

End Reviewed.

Lemma recommend_cardinality_witness :
  (∃ rows,
     top_indices
       (similarities Samples.courses (_clean_text (PStr (cps "python programming"))))
       100 = Ok rows
     ∧ length rows = 3 ∧ rows ≡ₚ [0; 1; 2])
  ∧ (∃ hits,
       recommend Samples.courses (PStr (cps "python programming")) 100 = Ok hits
       ∧ length hits = 3
       ∧ ∀ titles, df_col (df Samples.courses) (cps "__title__") = Ok titles →
           title <$> hits ≡ₚ titles).
Proof.
  destruct (recommend_cardinality Samples.courses
              (PStr (cps "python programming")) 100
              Samples.courses_well_formed) as (Hselect & Hquery & Hnum).
  { vm_compute. discriminate. }
  split.
  - destruct Hselect as (rows & Hrows & Hlen & Hall). exists rows.
    split; [exact Hrows|]. split; [exact Hlen|]. apply Hall. vm_compute. lia.
  - destruct (Hnum Samples.courses_ratings_numeric) as [hits Hhits].
    rewrite Hhits in Hquery. destruct Hquery as [Hlen Hall].
    exists hits. split; [exact Hhits|]. split; [exact Hlen|].
    apply Hall. vm_compute. lia.
Defined.

(** C4, as claimed, fails: on a catalogue whose detected rating column
    ([reviews]) holds text, a query whose normalised text is not empty is
    answered with [ValueError] and not with min(max(1, top_n), corpus size)
    results, for a small and for a large [top_n]. *)
Lemma text_rating_breaks_cardinality :
  well_formed Reviewed.reviewed
  ∧ corpus_size Reviewed.reviewed = 2
  ∧ _clean_text (PStr (cps "python")) = cps "python"
  ∧ recommend Reviewed.reviewed (PStr (cps "python")) 1 = Raise ValueError
  ∧ recommend Reviewed.reviewed (PStr (cps "python")) 100 = Raise ValueError.
Proof.
  split; [exact Reviewed.reviewed_well_formed|].
  repeat split; vm_compute; reflexivity.
Qed.

Lemma load_data_frame_witness :
  ∃ d, read_csv (cps "../data/udemy_courses.csv") = Ok d
    ∧ csv_path Samples.courses = cps "../data/udemy_courses.csv"
    ∧ mapping Samples.courses = _detect_columns d
    ∧ url_col Samples.courses = m_url (mapping Samples.courses)
    ∧ rating_col Samples.courses = m_rating (mapping Samples.courses)
    ∧ corpus_size Samples.courses = df_len d
    ∧ (∀ name, name ≠ cps "__title__" →
         assoc name (df Samples.courses) = assoc name d)
    ∧ ∃ title_col tcol,
        title_source d title_col ∧ df_col d title_col = Ok tcol
        ∧ df_col (df Samples.courses) (cps "__title__") = Ok (astype_str tcol)
        ∧ ∀ i v, tcol !! i = Some v →
            cell (df Samples.courses) (cps "__title__") i
            = Some (if isna v && astype_str_keeps_missing then PNaN
                    else PStr (py_str v)).
Proof. exact (load_data_frame _ _ _ Samples.courses_loaded). Defined.

Lemma load_data_texts_witness :
  ∃ d title_col tcol combined fitted,
    read_csv (cps "gaps.csv") = Ok d ∧ title_source d title_col
    ∧ df_col d title_col = Ok tcol
    ∧ tfidf_fit_transform (1, 2) 20000%N combined = Ok fitted
    ∧ vectorizer Samples.gaps = fitted.1 ∧ tfidf_matrix Samples.gaps = fitted.2
    ∧ if truthy (m_desc (mapping Samples.gaps))
      then ∃ dcol,
             df_col (df Samples.gaps) (default [] (m_desc (mapping Samples.gaps)))
             = Ok dcol
             ∧ combined =
                 zip_with
                   (λ t v, _clean_text (PStr (filled_text t ++ cps " " ++ filled_text v)))
                   tcol dcol
      else combined = (λ t, _clean_text (PStr (filled_text t))) <$> tcol.
Proof. exact (load_data_texts _ _ _ Samples.gaps_loaded). Defined.

Lemma loaded_titles_are_strings_witness :
  ∃ hits,
    recommend Samples.courses (PStr (cps "python programming")) 2 = Ok hits
    ∧ Forall (λ h, (∃ s, title h = PStr s)
                   ∨ (title h = PNaN ∧ astype_str_keeps_missing = true)) hits.
Proof.
  eexists. split; [vm_compute; reflexivity|].
  eapply (loaded_titles_are_strings _ _ Samples.courses
            (PStr (cps "python programming")) 2).
  - exact Samples.courses_loaded.
  - vm_compute. reflexivity.
Defined.

Lemma recommend_top_rows_witness :
  ∃ hits,
    recommend Samples.courses (PStr (cps "python programming")) 2 = Ok hits
    ∧ ∃ rows,
        Forall2 (λ i h,
          similarities Samples.courses (_clean_text (PStr (cps "python programming")))
            !! i = Some (score h)) rows hits
        ∧ NoDup rows
        ∧ ∀ j y,
            similarities Samples.courses (_clean_text (PStr (cps "python programming")))
              !! j = Some y →
            j ∉ rows → Forall (λ h, (y <= score h)%Q) hits.
Proof.
  eexists. split; [vm_compute; reflexivity|].
  apply (recommend_top_rows Samples.courses (PStr (cps "python programming")) 2).
  vm_compute. reflexivity.
Defined.

Lemma recommend_alignment_witness :
  ∃ hits,
    recommend Samples.courses (PStr (cps "python programming")) 2 = Ok hits
    ∧ ∃ rows,
        Forall2
          (hit_of_row Samples.courses
             (similarities Samples.courses
                (_clean_text (PStr (cps "python programming")))))
          rows hits.
Proof.
  eexists. split; [vm_compute; reflexivity|].
  apply (recommend_alignment Samples.courses (PStr (cps "python programming")) 2).
  vm_compute. reflexivity.
Defined.

Lemma recommend_raises_only_value_error_witness :
  recommend Reviewed.reviewed (PStr (cps "python")) 1 = Raise ValueError
  ∧ ValueError = ValueError
  ∧ ∃ i s, i < corpus_size Reviewed.reviewed
      ∧ cell (df Reviewed.reviewed) (default [] (rating_col Reviewed.reviewed)) i
        = Some (PStr s)
      ∧ float_of_str s = None.
Proof.
  split; [vm_compute; reflexivity|].
  apply (recommend_raises_only_value_error Reviewed.reviewed (PStr (cps "python")) 1).
  - exact Reviewed.reviewed_well_formed.
  - vm_compute. reflexivity.
Defined.



Example route_uses_name_when_q_is_empty :
  route_recommend Samples.courses [(cps "q", []); (cps "name", cps "???")]
  = JsonResults (cps "???") [].
Proof. vm_compute. reflexivity. Qed.

Example reviewed_route_answers_500 :
  route_recommend Reviewed.reviewed [(cps "q", cps "python")]
  = JsonError 500 (cps "internal server error") (Some ValueError).
Proof. vm_compute. reflexivity. Qed.
